(** * bitlib.h: operations on a 64-bit register

    A shallow embedding of the functions of [bitlib.h] and the properties
    its specification states about them.

    Data.  The C type [bit] is [unsigned long long]: a value is a [Z] in
    [0, 2^64), and every operation that can leave that range is followed by
    the reduction modulo [2^64] that unsigned arithmetic performs.  A
    [size_t] is a [Z] in the same range; the only arithmetic done on it that
    can wrap is the subtraction [BIT_SIZE - n].  The enumeration
    [bool { false, true }] is Rocq's [bool]; where C converts it to an
    integer the model writes [Z.b2z].

    Shifts.  ISO C gives [b << n] and [b >> n] a value only when [n] is
    smaller than the width of [b] (C11 6.5.7p3).  The two C operators are
    therefore partial here: they return [None] when the count is 64 or
    more, and every function built from them lives in the option monad.
    [None] reads "the source has no defined result on this input".

    Memory.  A heap block is its size together with the character in each
    cell.  A store or a load outside the block has no defined result
    either, and neither has the load of a cell nothing was stored in. *)

From Stdlib Require Import ZArith Lia Bool List String Ascii.
Import ListNotations.
Local Open Scope Z_scope.

(* ------------------------------------------------------------------ *)
(** ** A small error monad *)

Definition bind {A B : Type} (c : option A) (k : A -> option B) : option B :=
  match c with
  | Some a => k a
  | None => None
  end.

Notation "x <- c ;; k" := (bind c (fun x => k))
  (at level 61, c at next level, right associativity).
Notation "' ( x , y ) <- c ;; k" := (bind c (fun p => let '(x, y) := p in k))
  (at level 61, c at next level, x name, y name, right associativity).

(* ------------------------------------------------------------------ *)
(** ** The machine types *)

(** [const size_t BIT_SIZE = sizeof(bit) * 8;] *)
Definition BIT_SIZE : Z := 64.

(** Wrap-around of [unsigned long long] (and of a 64-bit [size_t]). *)
Definition wrap (x : Z) : Z := x mod 2 ^ BIT_SIZE.

(** The values of type [bit]. *)
Definition is_bit (b : Z) : Prop := 0 <= b < 2 ^ BIT_SIZE.

(** The values of type [size_t]. *)
Definition is_size_t (n : Z) : Prop := 0 <= n < 2 ^ BIT_SIZE.

Module C.

(** [b << n] on [unsigned long long]. *)
Definition shl (b n : Z) : option Z :=
  if (0 <=? n) && (n <? BIT_SIZE) then Some (wrap (Z.shiftl b n)) else None.

(** [b >> n] on [unsigned long long]. *)
Definition shr (b n : Z) : option Z :=
  if (0 <=? n) && (n <? BIT_SIZE) then Some (Z.shiftr b n) else None.

(** [~b] on [unsigned long long]. *)
Definition not (b : Z) : Z := wrap (Z.lnot b).

(** [a - b] on [size_t]. *)
Definition sub (a b : Z) : Z := wrap (a - b).

End C.

(* ------------------------------------------------------------------ *)
(** ** Boolean and shift primitives *)

Definition Bit_shiftLeft (b n : Z) : option Z := C.shl b n.

Definition Bit_shiftRight (b n : Z) : option Z := C.shr b n.

Definition Bit_OR (b1 b2 : Z) : Z := Z.lor b1 b2.

Definition Bit_XOR (b1 b2 : Z) : Z := Z.lxor b1 b2.

Definition Bit_AND (b1 b2 : Z) : Z := Z.land b1 b2.

(* ------------------------------------------------------------------ *)
(** ** Accessors and mutators by index *)

(** [n = (n < 1 ? 1 : n > BIT_SIZE ? BIT_SIZE : n); return Bit_shiftLeft(1, --n);] *)
Definition Bit_mask1 (n : Z) : option Z :=
  let n := if n <? 1 then 1 else if n >? BIT_SIZE then BIT_SIZE else n in
  Bit_shiftLeft 1 (n - 1).

Definition Bit_turnOn (b n : Z) : option Z :=
  m <- Bit_mask1 n ;; Some (Bit_OR b m).

Definition Bit_turnOff (b n : Z) : option Z :=
  m <- Bit_mask1 n ;; Some (Bit_AND b (C.not m)).

Definition Bit_toggle (b n : Z) : option Z :=
  m <- Bit_mask1 n ;; Some (Bit_XOR b m).

Definition Bit_get (b n : Z) : option bool :=
  m <- Bit_mask1 n ;; Some (negb (Bit_AND b m =? 0)).

Definition Bit_toggleAll (b : Z) : Z := C.not b.

Definition Bit_filterLeft (b n : Z) : option Z :=
  x <- Bit_shiftRight b (C.sub BIT_SIZE n) ;;
  Bit_shiftLeft x (C.sub BIT_SIZE n).

Definition Bit_filterRight (b n : Z) : option Z :=
  x <- Bit_shiftLeft b (C.sub BIT_SIZE n) ;;
  Bit_shiftRight x (C.sub BIT_SIZE n).

Definition Bit_filterSectionIncl (b from to : Z) : option Z :=
  x <- Bit_filterRight b to ;;
  Bit_filterLeft x (C.sub BIT_SIZE from).

Definition Bit_filterSectionExcl (b from to : Z) : option Z :=
  x <- Bit_filterSectionIncl b from to ;; Some (C.not x).

Definition Bit_getSection (b from to : Z) : option Z :=
  x <- Bit_filterSectionIncl b from to ;;
  Bit_shiftRight x from.

Definition Bit_addLeft (b : Z) (add : bool) : option Z :=
  x <- Bit_shiftRight b 1 ;;
  m <- (if add then Bit_mask1 BIT_SIZE else Some 0) ;;
  Some (Bit_OR x m).

Definition Bit_addBitsLeft (b left n : Z) : option Z :=
  x <- Bit_shiftRight b n ;;
  f <- Bit_filterRight left n ;;
  y <- Bit_shiftLeft f (C.sub BIT_SIZE n) ;;
  Some (Bit_OR x y).

Definition Bit_addRight (b : Z) (add : bool) : option Z :=
  x <- Bit_shiftLeft b 1 ;; Some (Bit_OR x (Z.b2z add)).

Definition Bit_addBitsRight (b right n : Z) : option Z :=
  x <- Bit_shiftLeft b n ;;
  f <- Bit_filterRight right n ;;
  Some (Bit_OR x f).

(** The two functions that take [bit *b]: the register is threaded through,
    the result is the bit read and the register after the shift. *)
Definition Bit_getAndRemoveLeft (b : Z) : option (bool * Z) :=
  r <- Bit_get b BIT_SIZE ;;
  b' <- C.shl b 1 ;;
  Some (r, b').

Definition Bit_getAndRemoveRight (b : Z) : option (bool * Z) :=
  r <- Bit_get b 1 ;;
  b' <- C.shr b 1 ;;
  Some (r, b').

(* ------------------------------------------------------------------ *)
(** ** Composite operations *)

(** [while (i--) rev = Bit_addRight(rev, Bit_getAndRemoveRight(&b));] *)
Fixpoint reverse_loop (i : nat) (b rev : Z) : option Z :=
  match i with
  | O => Some rev
  | S i' =>
      '(r, b') <- Bit_getAndRemoveRight b ;;
      rev' <- Bit_addRight rev r ;;
      reverse_loop i' b' rev'
  end.

Definition Bit_reverse (b : Z) : option Z :=
  reverse_loop (Z.to_nat BIT_SIZE) b 0.

Definition Bit_rotateLeft (b n : Z) : option Z :=
  s <- Bit_getSection b (C.sub BIT_SIZE n) BIT_SIZE ;;
  Bit_addBitsRight b s n.

Definition Bit_rotateRight (b n : Z) : option Z :=
  s <- Bit_getSection b 0 n ;;
  Bit_addBitsLeft b s n.

(** [while (b) if (Bit_getAndRemoveRight(&b)) i++;]  The loop ends when the
    register is zero; [fuel] bounds the number of iterations of the model,
    and [None] is also the answer when it runs out. *)
Fixpoint count1_loop (fuel : nat) (b i : Z) : option Z :=
  if b =? 0 then Some i
  else
    match fuel with
    | O => None
    | S fuel' =>
        '(r, b') <- Bit_getAndRemoveRight b ;;
        count1_loop fuel' b' (if r then i + 1 else i)
    end.

Definition Bit_count1_fuel (fuel : nat) (b : Z) : option Z :=
  count1_loop fuel b 0.

(** A register is zero after at most [BIT_SIZE] shifts. *)
Definition Bit_count1 (b : Z) : option Z :=
  Bit_count1_fuel (Z.to_nat BIT_SIZE) b.

Definition Bit_getEvenParityBit (b : Z) : option bool :=
  c <- Bit_count1 b ;; Some (negb (c mod 2 =? 0)).

(* ------------------------------------------------------------------ *)
(** ** Conversion from and to text *)

(** The value of [s[i] - '0'] taken as a [bool]. *)
Definition digit_bool (c : ascii) : bool :=
  negb (Z.of_N (N_of_ascii c) - Z.of_N (N_of_ascii "0") =? 0).

(** [while (s[i] != '\0') { if (s[i] == '1' || s[i] == '0') b = Bit_addRight(b, s[i] - '0'); i++; }]
    The argument is the text [s] points to; the scan ends at the end of the
    text, where the terminator is, or earlier at a NUL character in it. *)
Fixpoint fromStringMSB_loop (s : string) (b : Z) : option Z :=
  match s with
  | EmptyString => Some b
  | String c s' =>
      if Ascii.eqb c zero then Some b
      else if Ascii.eqb c "1" || Ascii.eqb c "0" then
        b' <- Bit_addRight b (digit_bool c) ;;
        fromStringMSB_loop s' b'
      else fromStringMSB_loop s' b
  end.

Definition Bit_fromStringMSB (s : string) : option Z :=
  fromStringMSB_loop s 0.

Definition Bit_fromStringLSB (s : string) : option Z :=
  b <- Bit_fromStringMSB s ;; Bit_reverse b.

(** A heap block reached through a [char *]: the number of bytes it has
    and the character in each cell, [None] as long as nothing was stored
    there. *)
Record chars : Type := Block { extent : nat; cell : nat -> option ascii }.

(** [malloc(n)]: a block of [n] bytes, its contents indeterminate. *)
Definition malloc (n : nat) : chars :=
  {| extent := n; cell := fun _ => None |}.

(** [s[i] = c]; no result when [i] is not an index of the block. *)
Definition store (s : chars) (i : nat) (c : ascii) : option chars :=
  if (i <? extent s)%nat
  then Some {| extent := extent s;
               cell := fun j => if Nat.eqb j i then Some c else cell s j |}
  else None.

(** [s[i]] read; no result outside the block or on an indeterminate cell. *)
Definition load (s : chars) (i : nat) : option ascii :=
  if (i <? extent s)%nat then cell s i else None.

(** The text a [char *] denotes: the cells from index [i] up to the first
    NUL.  [fuel] bounds the number of cells read. *)
Fixpoint string_at (fuel : nat) (s : chars) (i : nat) : option string :=
  match fuel with
  | O => None
  | S fuel' =>
      c <- load s i ;;
      if Ascii.eqb c zero then Some EmptyString
      else t <- string_at fuel' s (S i) ;; Some (String c t)
  end.

(** [while (i--) s[i] = (Bit_getAndRemoveRight(&b) ? '1' : '0');] *)
Fixpoint toStringBinMSB_loop (i : nat) (b : Z) (s : chars) : option chars :=
  match i with
  | O => Some s
  | S i' =>
      '(r, b') <- Bit_getAndRemoveRight b ;;
      s' <- store s i' (if r then "1" else "0")%char ;;
      toStringBinMSB_loop i' b' s'
  end.

(** The body of [Bit_toStringBinMSB] on a block of [size] bytes:
    [size_t i = BIT_SIZE; char* s = malloc(size); s[i] = '\0'; while ...; return s;] *)
Definition toStringBinMSB_sized (size : nat) (b : Z) : option chars :=
  let i := Z.to_nat BIT_SIZE in
  let s := malloc size in
  s <- store s i zero ;;
  toStringBinMSB_loop i b s.

(** The source asks [malloc] for [i * sizeof(char)] bytes, with
    [i = BIT_SIZE] and [sizeof(char) = 1]. *)
Definition Bit_toStringBinMSB (b : Z) : option chars :=
  toStringBinMSB_sized (Z.to_nat BIT_SIZE * 1) b.

Definition Bit_toStringBinLSB (b : Z) : option chars :=
  r <- Bit_reverse b ;; Bit_toStringBinMSB r.

(* ------------------------------------------------------------------ *)
(** ** Console output *)

(** The digits of the [X] conversion. *)
Definition hex_digit (d : Z) : ascii :=
  nth (Z.to_nat d) (list_ascii_of_string "0123456789ABCDEF") "?"%char.

(** The hexadecimal digits of [v], most significant first, put in front of
    [acc]; no digit for zero.  A 64-bit value has at most 16 of them. *)
Fixpoint hex_digits (fuel : nat) (v : Z) (acc : string) : string :=
  match fuel with
  | O => acc
  | S fuel' =>
      if v =? 0 then acc
      else hex_digits fuel' (v / 16) (String (hex_digit (v mod 16)) acc)
  end.

Fixpoint replicate (n : nat) (c : ascii) : string :=
  match n with
  | O => EmptyString
  | S n' => String c (replicate n' c)
  end.

(** What [printf] writes for a conversion [%X] of an [unsigned long long]
    with the flags [#] and [0] and a field width (C11 7.21.6.1): the
    default precision asks for at least one digit, [#] puts [0X] in front
    of a nonzero result, and with [0] the field is filled up with zeros
    after the prefix, with spaces before it otherwise. *)
Definition printf_llX (alt zero_flag : bool) (width : nat) (v : Z) : string :=
  let digits := if v =? 0 then "0"%string else hex_digits 16 v EmptyString in
  let prefix := if alt && negb (v =? 0) then "0X"%string else EmptyString in
  let fill := (width - String.length prefix - String.length digits)%nat in
  if zero_flag then (prefix ++ replicate fill "0" ++ digits)%string
  else (replicate fill " " ++ prefix ++ digits)%string.

(** [printf("%#018llX", b);]  Standard output is the text written so far. *)
Definition Bit_printHex (b : Z) (stdout : string) : string :=
  (stdout ++ printf_llX true true 18 b)%string.

(* ------------------------------------------------------------------ *)
(** ** The remaining functions *)

(** [size_t i = (b > 0); while (b && !Bit_getAndRemoveRight(&b)) i++; return i;]
    The test pops a bit whenever the register is not zero, and the loop
    goes on as long as the bit popped is 0. *)
Fixpoint getFirst1_loop (fuel : nat) (b i : Z) : option Z :=
  if b =? 0 then Some i
  else
    match fuel with
    | O => None
    | S fuel' =>
        '(r, b') <- Bit_getAndRemoveRight b ;;
        if r then Some i else getFirst1_loop fuel' b' (i + 1)
    end.

Definition Bit_getFirst1_fuel (fuel : nat) (b : Z) : option Z :=
  getFirst1_loop fuel b (if b >? 0 then 1 else 0).

Definition Bit_getFirst1 (b : Z) : option Z :=
  Bit_getFirst1_fuel (Z.to_nat BIT_SIZE) b.

(** [size_t i = (b ? BIT_SIZE : 0); while (b && !Bit_getAndRemoveLeft(&b)) i--; return i;] *)
Fixpoint getSize_loop (fuel : nat) (b i : Z) : option Z :=
  if b =? 0 then Some i
  else
    match fuel with
    | O => None
    | S fuel' =>
        '(r, b') <- Bit_getAndRemoveLeft b ;;
        if r then Some i else getSize_loop fuel' b' (C.sub i 1)
    end.

Definition Bit_getSize_fuel (fuel : nat) (b : Z) : option Z :=
  getSize_loop fuel b (if b =? 0 then 0 else BIT_SIZE).

Definition Bit_getSize (b : Z) : option Z :=
  Bit_getSize_fuel (Z.to_nat BIT_SIZE) b.

(** What [printf("%d", r)] writes for a [bool]. *)
Definition printf_d (r : bool) : string :=
  if r then "1"%string else "0"%string.

(** [while (i--) { printf("%d", Bit_getAndRemoveLeft(&b)); if (inNibbles && !(i % 4)) putchar(' '); }]
    In the body [i] is already decremented. *)
Fixpoint printBinNibble_loop (i : nat) (b : Z) (inNibbles : bool)
    (stdout : string) : option string :=
  match i with
  | O => Some stdout
  | S i' =>
      '(r, b') <- Bit_getAndRemoveLeft b ;;
      let stdout := (stdout ++ printf_d r)%string in
      let stdout :=
        if inNibbles && (i' mod 4 =? 0)%nat then (stdout ++ " ")%string
        else stdout in
      printBinNibble_loop i' b' inNibbles stdout
  end.

Definition Bit_printBinNibble (b : Z) (inNibbles : bool) (stdout : string)
    : option string :=
  printBinNibble_loop (Z.to_nat BIT_SIZE) b inNibbles stdout.

Definition Bit_printBin (b : Z) (stdout : string) : option string :=
  Bit_printBinNibble b false stdout.

(* ------------------------------------------------------------------ *)
(** ** Vocabulary of the statements *)

(** The index after clamping, as the first line of [Bit_mask1] computes it. *)
Definition clamp (n : Z) : Z :=
  if n <? 1 then 1 else if n >? BIT_SIZE then BIT_SIZE else n.

(** [m] has exactly one bit set, the one at index [p] (counted from 1 at
    the least significant end, and read with [Bit_get]). *)
Definition only_bit (m p : Z) : Prop :=
  is_bit m /\
  forall k, 1 <= k <= BIT_SIZE -> Bit_get m k = Some (k =? p).

(** [m] is the register whose only bit set is the one at index [p]: it is
    the number [2^(p-1)], its binary digit of weight [2^i] is 1 for
    [i = p - 1] and for no other [i], and [Bit_get] reads it so. *)
Definition single_bit_at (m p : Z) : Prop :=
  m = 2 ^ (p - 1) /\
  (forall i, 0 <= i -> Z.testbit m i = (i =? p - 1)) /\
  only_bit m p.

(** The number of bits set among the [n] low bits of [b]. *)
Fixpoint popcount (n : nat) (b : Z) : Z :=
  match n with
  | O => 0
  | S n' => Z.b2z (Z.testbit b 0) + popcount n' (Z.shiftr b 1)
  end.

(** The [n] low bits of [b] written as text, most significant first. *)
Fixpoint bin_text (n : nat) (b : Z) : string :=
  match n with
  | O => EmptyString
  | S n' =>
      String (if Z.testbit b (Z.of_nat n') then "1" else "0")%char
             (bin_text n' b)
  end.

(** [v] written with exactly [n] hexadecimal digits, most significant
    first: the digit at position [k] from the right is [(v / 16^k) mod 16]. *)
Fixpoint hex_text (n : nat) (v : Z) : string :=
  match n with
  | O => EmptyString
  | S n' => String (hex_digit ((v / 16 ^ Z.of_nat n') mod 16)) (hex_text n' v)
  end.

(** The characters of [s] that [Bit_fromStringMSB] takes into account, in
    the order of the text, as bits. *)
Fixpoint recognized (s : string) : list bool :=
  match s with
  | EmptyString => []
  | String c s' =>
      if Ascii.eqb c zero then []
      else if Ascii.eqb c "1" then true :: recognized s'
      else if Ascii.eqb c "0" then false :: recognized s'
      else recognized s'
  end.

(** [s] with a space after every character that has a multiple of four
    characters behind it, when [flag] is set; [s] itself otherwise. *)
Fixpoint spaced (flag : bool) (s : string) : string :=
  match s with
  | EmptyString => EmptyString
  | String c s' =>
      String c
        (if flag && (String.length s' mod 4 =? 0)%nat
         then String " " (spaced flag s')
         else spaced flag s')
  end.

(** [s] cut into groups of four characters, a space after each group. *)
Fixpoint group4 (s : string) : string :=
  match s with
  | String a (String b (String c (String d rest))) =>
      String a (String b (String c (String d (String " " (group4 rest)))))
  | _ => s
  end.

(* ================================================================== *)
(** * Properties *)

(* ------------------------------------------------------------------ *)
(** ** Registers and their bits *)

Lemma wrap_small b : is_bit b -> wrap b = b.
Proof. intros H. apply Z.mod_small. exact H. Qed.

Lemma wrap_is_bit x : is_bit (wrap x).
Proof. unfold is_bit, wrap. apply Z.mod_pos_bound. reflexivity. Qed.

Lemma wrap_testbit x i :
  Z.testbit (wrap x) i = (i <? BIT_SIZE) && Z.testbit x i.
Proof.
  unfold wrap. destruct (Z.ltb_spec i 0).
  - rewrite !Z.testbit_neg_r by assumption. now rewrite andb_false_r.
  - rewrite Z.testbit_mod_pow2 by (unfold BIT_SIZE; lia). reflexivity.
Qed.

Lemma is_bit_high b i : is_bit b -> BIT_SIZE <= i -> Z.testbit b i = false.
Proof.
  intros Hb Hi. rewrite <- (wrap_small b Hb), wrap_testbit.
  destruct (Z.ltb_spec i BIT_SIZE); [lia | reflexivity].
Qed.

(** A nonnegative number whose bits from [BIT_SIZE] on are zero is a register. *)
Lemma is_bit_intro b :
  (forall i, 0 <= i -> BIT_SIZE <= i -> Z.testbit b i = false) -> 0 <= b ->
  is_bit b.
Proof.
  intros H H0. rewrite <- (Z.mod_small b (2 ^ BIT_SIZE)); [apply wrap_is_bit |].
  split; [exact H0 |].
  destruct (Z.eq_dec b 0) as [-> | Hne]; [reflexivity |].
  apply Z.log2_lt_pow2; [lia |].
  destruct (Z.lt_ge_cases (Z.log2 b) BIT_SIZE) as [Hlt | Hge]; [exact Hlt |].
  assert (Hb : Z.testbit b (Z.log2 b) = true) by (apply Z.bit_log2; lia).
  rewrite H in Hb; [discriminate | apply Z.log2_nonneg | exact Hge].
Qed.

(** Two registers with the same [BIT_SIZE] bits are equal. *)
Lemma is_bit_ext a b :
  is_bit a -> is_bit b ->
  (forall i, 0 <= i < BIT_SIZE -> Z.testbit a i = Z.testbit b i) -> a = b.
Proof.
  intros Ha Hb H. apply Z.bits_inj'. intros i Hi.
  destruct (Z.lt_ge_cases i BIT_SIZE) as [Hlt | Hge].
  - apply H. lia.
  - now rewrite !is_bit_high.
Qed.

Lemma land_pow2 b k :
  0 <= k -> Z.land b (2 ^ k) = if Z.testbit b k then 2 ^ k else 0.
Proof.
  intros Hk. apply Z.bits_inj'. intros i Hi.
  rewrite Z.land_spec, Z.pow2_bits_eqb by assumption.
  destruct (Z.eqb_spec k i) as [-> | Hne].
  - destruct (Z.testbit b i);
      [now rewrite Z.pow2_bits_true | now rewrite Z.bits_0].
  - rewrite andb_false_r.
    destruct (Z.testbit b k);
      [now rewrite Z.pow2_bits_false | now rewrite Z.bits_0].
Qed.

(* ------------------------------------------------------------------ *)
(** ** The C shifts *)

Lemma shl_in b n :
  0 <= n < BIT_SIZE -> C.shl b n = Some (wrap (Z.shiftl b n)).
Proof.
  intros H. unfold C.shl.
  destruct (Z.leb_spec 0 n); [| lia].
  destruct (Z.ltb_spec n BIT_SIZE); [reflexivity | lia].
Qed.

Lemma shr_in b n : 0 <= n < BIT_SIZE -> C.shr b n = Some (Z.shiftr b n).
Proof.
  intros H. unfold C.shr.
  destruct (Z.leb_spec 0 n); [| lia].
  destruct (Z.ltb_spec n BIT_SIZE); [reflexivity | lia].
Qed.

Lemma shl_out b n : BIT_SIZE <= n -> C.shl b n = None.
Proof.
  intros H. unfold C.shl.
  destruct (Z.ltb_spec n BIT_SIZE); [lia | now rewrite andb_false_r].
Qed.

Lemma shr_out b n : BIT_SIZE <= n -> C.shr b n = None.
Proof.
  intros H. unfold C.shr.
  destruct (Z.ltb_spec n BIT_SIZE); [lia | now rewrite andb_false_r].
Qed.

Lemma shiftr_is_bit b n : is_bit b -> 0 <= n -> is_bit (Z.shiftr b n).
Proof.
  unfold is_bit. intros [H0 H1] Hn. rewrite Z.shiftr_div_pow2 by exact Hn.
  assert (0 < 2 ^ n) by (apply Z.pow_pos_nonneg; lia).
  split; [apply Z.div_pos; lia |].
  apply Z.le_lt_trans with b; [| exact H1].
  apply Z.div_le_upper_bound; nia.
Qed.

(** [size_t] subtraction from [BIT_SIZE] does not wrap up to [BIT_SIZE]. *)
Lemma sub_in n : 0 <= n <= BIT_SIZE -> C.sub BIT_SIZE n = BIT_SIZE - n.
Proof.
  intros H. unfold C.sub. apply wrap_small.
  unfold is_bit, BIT_SIZE in *. lia.
Qed.

(* ------------------------------------------------------------------ *)
(** ** Masks and single bits *)

Lemma clamp_range n : 1 <= clamp n <= BIT_SIZE.
Proof.
  unfold clamp, BIT_SIZE.
  destruct (Z.ltb_spec n 1); [lia |].
  destruct (Z.gtb_spec n 64); lia.
Qed.

Lemma mask1_clamp n : Bit_mask1 n = Some (2 ^ (clamp n - 1)).
Proof.
  unfold Bit_mask1, Bit_shiftLeft. fold (clamp n).
  pose proof (clamp_range n) as Hc.
  rewrite shl_in by lia.
  rewrite Z.shiftl_1_l, wrap_small; [reflexivity |].
  unfold is_bit. split; [apply Z.pow_nonneg; lia |].
  apply Z.pow_lt_mono_r; lia.
Qed.

Lemma clamp_in n : 1 <= n <= BIT_SIZE -> clamp n = n.
Proof.
  intros H. unfold clamp.
  destruct (Z.ltb_spec n 1); [lia |].
  destruct (Z.gtb_spec n BIT_SIZE); [lia | reflexivity].
Qed.

Lemma mask1_in n : 1 <= n <= BIT_SIZE -> Bit_mask1 n = Some (2 ^ (n - 1)).
Proof. intros H. now rewrite mask1_clamp, clamp_in. Qed.

(** [Bit_get] reads the bit at the clamped index. *)
Lemma get_clamp b n : Bit_get b n = Some (Z.testbit b (clamp n - 1)).
Proof.
  unfold Bit_get. rewrite mask1_clamp. cbn [bind]. unfold Bit_AND.
  pose proof (clamp_range n) as Hc.
  rewrite land_pow2 by lia.
  assert (2 ^ (clamp n - 1) <> 0) by (apply Z.pow_nonzero; lia).
  destruct (Z.testbit b (clamp n - 1)); [| reflexivity].
  destruct (Z.eqb_spec (2 ^ (clamp n - 1)) 0); [contradiction | reflexivity].
Qed.

Lemma get_in b n :
  1 <= n <= BIT_SIZE -> Bit_get b n = Some (Z.testbit b (n - 1)).
Proof. intros H. now rewrite get_clamp, clamp_in. Qed.

Lemma pow2_only_bit p : 1 <= p <= BIT_SIZE -> only_bit (2 ^ (p - 1)) p.
Proof.
  intros Hp. split.
  - unfold is_bit. split; [apply Z.pow_nonneg; lia |].
    apply Z.pow_lt_mono_r; lia.
  - intros k Hk. rewrite get_in by exact Hk.
    rewrite Z.pow2_bits_eqb by lia. f_equal.
    destruct (Z.eqb_spec (p - 1) (k - 1)), (Z.eqb_spec k p); lia || reflexivity.
Qed.

Lemma pow2_single_bit_at p :
  1 <= p <= BIT_SIZE -> single_bit_at (2 ^ (p - 1)) p.
Proof.
  intros Hp. split; [reflexivity |]. split; [| now apply pow2_only_bit].
  intros i Hi. rewrite Z.pow2_bits_eqb by lia. apply Z.eqb_sym.
Qed.

(** C7.  [mask1(n)] is a register with exactly one bit set: the bit at
    index [n], that is the number [2^(n-1)], when [1 <= n <= N]; the bit at
    index 1, the number 1, when [n < 1]; the bit at index [N], the number
    [2^(N-1)], when [n > N].  In particular [mask1(0) = mask1(1)] and
    [mask1(N+5) = mask1(N)]. *)
Theorem mask1_single_clamped_bit :
  (forall n, exists m,
      Bit_mask1 n = Some m /\
      (1 <= n <= BIT_SIZE -> single_bit_at m n) /\
      (n < 1 -> single_bit_at m 1 /\ m = 1) /\
      (BIT_SIZE < n -> single_bit_at m BIT_SIZE /\ m = 2 ^ (BIT_SIZE - 1))) /\
  Bit_mask1 0 = Bit_mask1 1 /\ Bit_mask1 1 = Some 1 /\
  Bit_mask1 (BIT_SIZE + 5) = Bit_mask1 BIT_SIZE /\
  Bit_mask1 BIT_SIZE = Some (2 ^ (BIT_SIZE - 1)).
Proof.
  split; [| split; [| split; [| split]]; reflexivity].
  intros n. exists (2 ^ (clamp n - 1)). split; [apply mask1_clamp |].
  assert (H1 : single_bit_at (2 ^ (1 - 1)) 1)
    by (apply pow2_single_bit_at; unfold BIT_SIZE; lia).
  assert (HN : single_bit_at (2 ^ (BIT_SIZE - 1)) BIT_SIZE)
    by (apply pow2_single_bit_at; unfold BIT_SIZE; lia).
  unfold clamp.
  destruct (Z.ltb_spec n 1); [| destruct (Z.gtb_spec n BIT_SIZE)].
  - split; [intros; lia |]. split; [intros _; split; [exact H1 | reflexivity] |].
    intros; unfold BIT_SIZE in *; lia.
  - split; [intros; lia |]. split; [intros; lia |].
    intros _. split; [exact HN | reflexivity].
  - split; [intros Hn; now apply pow2_single_bit_at |].
    split; intros; lia.
Qed.

(* ------------------------------------------------------------------ *)
(** ** Shifts by the width and beyond *)

(** C6, as the code has it.  For a count [n < N] the two shifts are the
    logical ones: [shiftLeft(b, n)] is [b * 2^n] reduced modulo [2^N] and
    [shiftRight(b, n)] is the quotient of [b] by [2^n].  For [n >= N] the
    functions hand [n] to the C operator unchanged, which has no defined
    result there. *)
Theorem shift_defined_below_width b n :
  is_bit b -> is_size_t n ->
  (n < BIT_SIZE ->
     Bit_shiftLeft b n = Some ((b * 2 ^ n) mod 2 ^ BIT_SIZE) /\
     Bit_shiftRight b n = Some (b / 2 ^ n)) /\
  (BIT_SIZE <= n ->
     Bit_shiftLeft b n = None /\ Bit_shiftRight b n = None).
Proof.
  intros _ [Hn _]. unfold Bit_shiftLeft, Bit_shiftRight. split; intros H.
  - rewrite shl_in, shr_in by lia.
    rewrite Z.shiftl_mul_pow2, Z.shiftr_div_pow2 by lia. split; reflexivity.
  - rewrite shl_out, shr_out by lia. split; reflexivity.
Qed.

Lemma shift_defined_below_width_witness :
  is_bit 5 /\ is_size_t 3 /\
  Bit_shiftLeft 5 3 = Some 40 /\ Bit_shiftRight 5 3 = Some 0.
Proof.
  assert (Hb : is_bit 5) by (unfold is_bit; simpl; lia).
  assert (Hn : is_size_t 3) by (unfold is_size_t; simpl; lia).
  split; [exact Hb |]. split; [exact Hn |].
  destruct (shift_defined_below_width 5 3 Hb Hn) as [H _].
  apply H. unfold BIT_SIZE. lia.
Defined.

(** C6, as the specification words it, fails: a shift by the width does not
    yield 0. *)
Lemma shift_by_width_not_zero :
  ~ (forall b n, is_bit b -> BIT_SIZE <= n ->
       Bit_shiftLeft b n = Some 0 /\ Bit_shiftRight b n = Some 0) /\
  Bit_shiftLeft 1 64 <> Some 0 /\ Bit_shiftRight 1 64 <> Some 0.
Proof.
  assert (H1 : Bit_shiftLeft 1 64 <> Some 0) by (vm_compute; discriminate).
  assert (H2 : Bit_shiftRight 1 64 <> Some 0) by (vm_compute; discriminate).
  split; [| split; assumption].
  intros H. apply H1. apply (H 1 64); [unfold is_bit; simpl; lia |].
  unfold BIT_SIZE. lia.
Qed.

(* ------------------------------------------------------------------ *)
(** ** The single-bit mutators *)

Lemma turnOn_in b n :
  1 <= n <= BIT_SIZE -> Bit_turnOn b n = Some (Z.lor b (2 ^ (n - 1))).
Proof. intros H. unfold Bit_turnOn. now rewrite mask1_in. Qed.

Lemma turnOff_in b n :
  1 <= n <= BIT_SIZE ->
  Bit_turnOff b n = Some (Z.land b (wrap (Z.lnot (2 ^ (n - 1))))).
Proof. intros H. unfold Bit_turnOff. now rewrite mask1_in. Qed.

Lemma toggle_in b n :
  1 <= n <= BIT_SIZE -> Bit_toggle b n = Some (Z.lxor b (2 ^ (n - 1))).
Proof. intros H. unfold Bit_toggle. now rewrite mask1_in. Qed.

(** C10.  Each of [turnOn], [turnOff] and [toggle] at an index [n] leaves
    the bit at every other index [m] as [get] reads it in [b]. *)
Theorem single_bit_mutators_frame b n m :
  is_bit b -> 1 <= n <= BIT_SIZE -> 1 <= m <= BIT_SIZE -> m <> n ->
  exists v,
    Bit_get b m = Some v /\
    (x <- Bit_turnOn b n ;; Bit_get x m) = Some v /\
    (x <- Bit_turnOff b n ;; Bit_get x m) = Some v /\
    (x <- Bit_toggle b n ;; Bit_get x m) = Some v.
Proof.
  intros _ Hn Hm Hne. exists (Z.testbit b (m - 1)).
  rewrite turnOn_in, turnOff_in, toggle_in by exact Hn. cbn [bind].
  rewrite !get_in by exact Hm.
  assert (Hp : Z.testbit (2 ^ (n - 1)) (m - 1) = false)
    by (apply Z.pow2_bits_false; lia).
  repeat split; f_equal.
  - now rewrite Z.lor_spec, Hp, orb_false_r.
  - rewrite Z.land_spec, wrap_testbit, Z.lnot_spec, Hp by lia.
    destruct (Z.ltb_spec (m - 1) BIT_SIZE); [| lia].
    now rewrite andb_true_r.
  - now rewrite Z.lxor_spec, Hp, xorb_false_r.
Qed.

Lemma single_bit_mutators_frame_witness :
  exists v,
    Bit_get 10 2 = Some v /\
    (x <- Bit_turnOn 10 3 ;; Bit_get x 2) = Some v /\
    (x <- Bit_turnOff 10 3 ;; Bit_get x 2) = Some v /\
    (x <- Bit_toggle 10 3 ;; Bit_get x 2) = Some v.
Proof.
  apply (single_bit_mutators_frame 10 3 2).
  - unfold is_bit. simpl. lia.
  - unfold BIT_SIZE. lia.
  - unfold BIT_SIZE. lia.
  - lia.
Defined.

(* ------------------------------------------------------------------ *)
(** ** Filters and sections *)

(** Bit-by-bit reasoning: push [Z.testbit] through the operators, split on
    the comparisons of indices this leaves, and close the cases. *)
Ltac split_ltb :=
  repeat match goal with
    | |- context [ ?a <? ?b ] => destruct (Z.ltb_spec a b)
    | |- context [ ?a <=? ?b ] => destruct (Z.leb_spec a b)
    end.

Ltac push_testbit :=
  repeat first
    [ rewrite wrap_testbit
    | rewrite Z.lor_spec
    | rewrite Z.land_spec
    | rewrite Z.lxor_spec
    | rewrite Z.shiftr_spec by lia
    | rewrite Z.shiftl_spec by lia
    | rewrite Z.testbit_0_l ].

Ltac same_bit :=
  match goal with
  | |- Z.testbit ?a ?i = Z.testbit ?a ?j => f_equal; lia
  | |- Z.testbit _ ?i = false => apply Z.testbit_neg_r; lia
  | |- false = Z.testbit _ ?i => symmetry; apply Z.testbit_neg_r; lia
  end.

Ltac bits :=
  push_testbit; unfold BIT_SIZE in *; split_ltb; push_testbit; split_ltb;
  cbn [andb orb negb];
  rewrite ?andb_false_r, ?andb_true_r, ?orb_false_r, ?orb_false_l;
  try reflexivity; try lia; try same_bit.

Lemma filterRight_in b n :
  1 <= n <= BIT_SIZE ->
  exists r, Bit_filterRight b n = Some r /\ is_bit r /\
            forall i, 0 <= i -> Z.testbit r i = (i <? n) && Z.testbit b i.
Proof.
  intros Hn. unfold Bit_filterRight, Bit_shiftLeft, Bit_shiftRight.
  rewrite sub_in by lia. rewrite shl_in by lia. cbn [bind]. rewrite shr_in by lia.
  eexists. split; [reflexivity |]. split.
  - apply shiftr_is_bit; [apply wrap_is_bit | lia].
  - intros i Hi. bits.
Qed.

Lemma filterLeft_in b n :
  1 <= n <= BIT_SIZE -> is_bit b ->
  exists r, Bit_filterLeft b n = Some r /\ is_bit r /\
            forall i, 0 <= i -> Z.testbit r i = (BIT_SIZE - n <=? i) && Z.testbit b i.
Proof.
  intros Hn Hb. unfold Bit_filterLeft, Bit_shiftLeft, Bit_shiftRight.
  rewrite sub_in by lia. rewrite shr_in by lia. cbn [bind]. rewrite shl_in by lia.
  eexists. split; [reflexivity |]. split.
  - apply wrap_is_bit.
  - intros i Hi. bits.
    symmetry. apply is_bit_high; [exact Hb | unfold BIT_SIZE; lia].
Qed.

Lemma filterSectionIncl_in b from to :
  is_bit b -> 0 <= from < BIT_SIZE -> 1 <= to <= BIT_SIZE ->
  exists f, Bit_filterSectionIncl b from to = Some f /\ is_bit f /\
            forall i, 0 <= i ->
              Z.testbit f i = (from <=? i) && (i <? to) && Z.testbit b i.
Proof.
  intros Hb Hf Ht. unfold Bit_filterSectionIncl.
  destruct (filterRight_in b to Ht) as (r & -> & Hr & Hrb). cbn [bind].
  rewrite sub_in by lia.
  destruct (filterLeft_in r (BIT_SIZE - from) ltac:(lia) Hr) as (f & -> & Hfb & Hff).
  exists f. split; [reflexivity |]. split; [exact Hfb |].
  intros i Hi. rewrite Hff, Hrb by exact Hi.
  replace (BIT_SIZE - (BIT_SIZE - from)) with from by lia.
  now rewrite andb_assoc.
Qed.


Lemma getSection_in b from to :
  is_bit b -> 0 <= from < BIT_SIZE -> 1 <= to <= BIT_SIZE ->
  exists g, Bit_getSection b from to = Some g /\ is_bit g /\
            forall i, 0 <= i ->
              Z.testbit g i = (i + from <? to) && Z.testbit b (i + from).
Proof.
  intros Hb Hf Ht. unfold Bit_getSection.
  destruct (filterSectionIncl_in b from to Hb Hf Ht) as (f & -> & Hfb & Hff).
  cbn [bind]. unfold Bit_shiftRight. rewrite shr_in by lia.
  eexists. split; [reflexivity |]. split.
  - apply shiftr_is_bit; [exact Hfb | lia].
  - intros i Hi. rewrite Z.shiftr_spec, Hff by lia.
    destruct (Z.leb_spec from (i + from)); [reflexivity | lia].
Qed.

(** C1, as the code has it.  [from] is the number of low bits dropped: for
    [0 <= from <= to <= N] with [from < N] and [1 <= to],
    [filterSectionIncl(b, from, to)] keeps the bits of [b] at the indices
    [from + 1 .. to] and zeroes the others, and [getSection(b, from, to)] is
    that value shifted right by [from] positions, so that bit [from + 1] of
    [b] becomes bit 1.  In particular [getSection(0b11110000, 4, 8) = 15]. *)
Theorem getSection_drops_from_low_bits :
  (forall b from to,
     is_bit b -> 0 <= from <= to -> from < BIT_SIZE -> 1 <= to <= BIT_SIZE ->
     exists f g,
       Bit_filterSectionIncl b from to = Some f /\
       (forall k, 1 <= k <= BIT_SIZE ->
          Bit_get f k =
          if (from <? k) && (k <=? to) then Bit_get b k else Some false) /\
       Bit_getSection b from to = Some g /\
       Bit_shiftRight f from = Some g /\
       (forall k, 1 <= k <= BIT_SIZE ->
          Bit_get g k =
          if k + from <=? to then Bit_get b (k + from) else Some false)) /\
  Bit_getSection 240 4 8 = Some 15.
Proof.
  split; [| reflexivity].
  intros b from to Hb Hft Hf Ht.
  destruct (filterSectionIncl_in b from to Hb ltac:(lia) Ht)
    as (f & Ef & Hfb & Hff).
  destruct (getSection_in b from to Hb ltac:(lia) Ht) as (g & Eg & Hgb & Hgg).
  exists f, g. repeat split; try assumption.
  - intros k Hk. rewrite get_in, Hff by lia.
    destruct (Z.ltb_spec from k), (Z.leb_spec k to),
      (Z.leb_spec from (k - 1)), (Z.ltb_spec (k - 1) to);
      try lia; cbn [andb]; try reflexivity.
    now rewrite get_in.
  - unfold Bit_getSection in Eg. rewrite Ef in Eg. exact Eg.
  - intros k Hk. rewrite get_in, Hgg by lia.
    destruct (Z.leb_spec (k + from) to), (Z.ltb_spec (k - 1 + from) to);
      try lia; cbn [andb]; try reflexivity.
    rewrite get_in by lia. do 2 f_equal. lia.
Qed.

Lemma getSection_drops_from_low_bits_witness :
  exists f g,
    Bit_filterSectionIncl 240 4 8 = Some f /\
    (forall k, 1 <= k <= BIT_SIZE ->
       Bit_get f k =
       if (4 <? k) && (k <=? 8) then Bit_get 240 k else Some false) /\
    Bit_getSection 240 4 8 = Some g /\
    Bit_shiftRight f 4 = Some g /\
    (forall k, 1 <= k <= BIT_SIZE ->
       Bit_get g k =
       if k + 4 <=? 8 then Bit_get 240 (k + 4) else Some false).
Proof.
  apply (proj1 getSection_drops_from_low_bits 240 4 8).
  - unfold is_bit. simpl. lia.
  - lia.
  - unfold BIT_SIZE. lia.
  - unfold BIT_SIZE. lia.
Defined.

(** C1, as the specification words it, fails: with [from = 5] the bits kept
    are those at the indices 6 to 8, shifted right by 5. *)
Lemma getSection_5_8_is_not_15 :
  Bit_getSection 240 5 8 = Some 7 /\ Bit_getSection 240 5 8 <> Some 15.
Proof. split; [reflexivity | vm_compute; discriminate]. Qed.

(* ------------------------------------------------------------------ *)
(** ** Rotations *)

Lemma rotateRight_in b n :
  is_bit b -> 1 <= n < BIT_SIZE ->
  exists r, Bit_rotateRight b n = Some r /\ is_bit r /\
            forall i, 0 <= i < BIT_SIZE ->
              Z.testbit r i =
              Z.testbit b (if i + n <? BIT_SIZE then i + n else i + n - BIT_SIZE).
Proof.
  intros Hb Hn. unfold Bit_rotateRight.
  destruct (getSection_in b 0 n Hb ltac:(unfold BIT_SIZE; lia) ltac:(lia))
    as (g & -> & Hgb & Hg).
  cbn [bind]. unfold Bit_addBitsLeft, Bit_shiftRight, Bit_shiftLeft.
  rewrite shr_in by lia. cbn [bind].
  destruct (filterRight_in g n ltac:(lia)) as (f & -> & Hfb & Hf).
  cbn [bind]. rewrite sub_in by lia. rewrite shl_in by lia. cbn [bind].
  eexists. split; [reflexivity |]. split.
  - apply is_bit_intro.
    + intros i Hi Hge. rewrite Z.lor_spec, wrap_testbit, Z.shiftr_spec by lia.
      rewrite (is_bit_high b) by (assumption || lia).
      destruct (Z.ltb_spec i BIT_SIZE); [lia | reflexivity].
    + apply Z.lor_nonneg. split.
      * apply Z.shiftr_nonneg, Hb.
      * apply wrap_is_bit.
  - intros i Hi. rewrite Z.lor_spec, wrap_testbit, Z.shiftr_spec by lia.
    destruct (Z.ltb_spec i BIT_SIZE); [| lia]. cbn [andb].
    destruct (Z.ltb_spec (i + n) BIT_SIZE).
    + rewrite Z.shiftl_spec, (Z.testbit_neg_r f) by lia. apply orb_false_r.
    + rewrite (is_bit_high b) by (assumption || lia). cbn [orb].
      rewrite Z.shiftl_spec, Hf, Hg by lia. rewrite Z.add_0_r.
      destruct (Z.ltb_spec (i - (BIT_SIZE - n)) n); [| lia].
      cbn [andb]. f_equal. lia.
Qed.

Lemma rotateLeft_in b n :
  is_bit b -> 1 <= n < BIT_SIZE ->
  exists l, Bit_rotateLeft b n = Some l /\ is_bit l /\
            forall i, 0 <= i < BIT_SIZE ->
              Z.testbit l i =
              Z.testbit b (if i <? n then i - n + BIT_SIZE else i - n).
Proof.
  intros Hb Hn. unfold Bit_rotateLeft. rewrite sub_in by lia.
  destruct (getSection_in b (BIT_SIZE - n) BIT_SIZE Hb ltac:(lia)
              ltac:(unfold BIT_SIZE; lia)) as (g & -> & Hgb & Hg).
  cbn [bind]. unfold Bit_addBitsRight, Bit_shiftLeft.
  rewrite shl_in by lia. cbn [bind].
  destruct (filterRight_in g n ltac:(lia)) as (f & -> & Hfb & Hf).
  cbn [bind]. eexists. split; [reflexivity |]. split.
  - apply is_bit_intro.
    + intros i Hi Hge. rewrite Z.lor_spec, wrap_testbit.
      rewrite (is_bit_high f) by (assumption || lia).
      destruct (Z.ltb_spec i BIT_SIZE); [lia | reflexivity].
    + apply Z.lor_nonneg. split; [apply wrap_is_bit | apply Hfb].
  - intros i Hi. rewrite Z.lor_spec, wrap_testbit, Z.shiftl_spec, Hf by lia.
    destruct (Z.ltb_spec i BIT_SIZE); [| lia]. cbn [andb].
    destruct (Z.ltb_spec i n).
    + rewrite (Z.testbit_neg_r b) by lia. cbn [orb andb]. rewrite Hg by lia.
      destruct (Z.ltb_spec (i + (BIT_SIZE - n)) BIT_SIZE); [| lia].
      cbn [andb]. f_equal. lia.
    + cbn [andb]. apply orb_false_r.
Qed.

Lemma rotateLeft_rotateRight b n :
  is_bit b -> 1 <= n < BIT_SIZE ->
  (r <- Bit_rotateRight b n ;; Bit_rotateLeft r n) = Some b.
Proof.
  intros Hb Hn.
  destruct (rotateRight_in b n Hb Hn) as (r & -> & Hrb & Hr). cbn [bind].
  destruct (rotateLeft_in r n Hrb Hn) as (l & -> & Hlb & Hl).
  f_equal. apply is_bit_ext; [assumption .. |].
  intros i Hi. rewrite Hl by exact Hi.
  destruct (Z.ltb_spec i n); rewrite Hr by lia.
  - destruct (Z.ltb_spec (i - n + BIT_SIZE + n) BIT_SIZE); [lia |]. f_equal. lia.
  - destruct (Z.ltb_spec (i - n + n) BIT_SIZE); [| lia]. f_equal. lia.
Qed.

Lemma rotateRight_rotateLeft b n :
  is_bit b -> 1 <= n < BIT_SIZE ->
  (l <- Bit_rotateLeft b n ;; Bit_rotateRight l n) = Some b.
Proof.
  intros Hb Hn.
  destruct (rotateLeft_in b n Hb Hn) as (l & -> & Hlb & Hl). cbn [bind].
  destruct (rotateRight_in l n Hlb Hn) as (r & -> & Hrb & Hr).
  f_equal. apply is_bit_ext; [assumption .. |].
  intros i Hi. rewrite Hr by exact Hi.
  destruct (Z.ltb_spec (i + n) BIT_SIZE); rewrite Hl by lia.
  - destruct (Z.ltb_spec (i + n) n); [lia |]. f_equal. lia.
  - destruct (Z.ltb_spec (i + n - BIT_SIZE) n); [| lia]. f_equal. lia.
Qed.

(** With [n = 0] and with [n = N] one of the shifts a rotation performs has
    the count [N]. *)
Lemma rotate_by_0_or_width b :
  Bit_rotateRight b 0 = None /\ Bit_rotateLeft b 0 = None /\
  Bit_rotateRight b BIT_SIZE = None /\ Bit_rotateLeft b BIT_SIZE = None.
Proof.
  split; [| split; [| split]]; reflexivity.
Qed.

(** For every register [b] and every [n] with [1 <= n <= N - 1], rotating
    right then left by [n], and left then right by [n], gives [b] back. *)
Lemma rotate_round_trip b n :
  is_bit b -> 1 <= n <= BIT_SIZE - 1 ->
  (r <- Bit_rotateRight b n ;; Bit_rotateLeft r n) = Some b /\
  (l <- Bit_rotateLeft b n ;; Bit_rotateRight l n) = Some b.
Proof.
  intros Hb Hn. split.
  - apply rotateLeft_rotateRight; [exact Hb | lia].
  - apply rotateRight_rotateLeft; [exact Hb | lia].
Qed.

Lemma rotate_round_trip_witness :
  (r <- Bit_rotateRight 11 5 ;; Bit_rotateLeft r 5) = Some 11 /\
  (l <- Bit_rotateLeft 11 5 ;; Bit_rotateRight l 5) = Some 11.
Proof.
  apply (rotate_round_trip 11 5).
  - unfold is_bit. simpl. lia.
  - unfold BIT_SIZE. lia.
Defined.

(** C2.  At [n = 0] the rotations do not get as far as an identity:
    [rotateRight(1, 0)] asks [filterRight] for 0 bits and [rotateLeft(1, 0)]
    asks [filterLeft] for 0 bits, each of which shifts by
    [BIT_SIZE - 0 = N], a count for which the C operators have no defined
    result.  At [n = N] the shift of [b] itself has the count [N]. *)
Theorem rotate_by_0_shifts_by_width :
  C.sub BIT_SIZE 0 = BIT_SIZE /\
  Bit_shiftLeft 1 BIT_SIZE = None /\ Bit_shiftRight 1 BIT_SIZE = None /\
  Bit_filterRight 1 0 = None /\ Bit_filterLeft 1 0 = None /\
  Bit_rotateRight 1 0 = None /\ Bit_rotateLeft 1 0 = None /\
  Bit_rotateRight 1 BIT_SIZE = None /\ Bit_rotateLeft 1 BIT_SIZE = None.
Proof. repeat (split; [reflexivity |]). reflexivity. Qed.

(* ------------------------------------------------------------------ *)
(** ** Reversal *)

Lemma b2z_testbit c j : Z.testbit (Z.b2z c) j = c && (j =? 0).
Proof.
  destruct c; cbn [Z.b2z andb]; [| apply Z.testbit_0_l].
  destruct (Z.eqb_spec j 0) as [-> | Hne]; [reflexivity |].
  destruct (Z.lt_ge_cases j 0); [now apply Z.testbit_neg_r |].
  change 1 with (2 ^ 0). apply Z.pow2_bits_false. lia.
Qed.

Lemma getAndRemoveRight_eq b :
  Bit_getAndRemoveRight b = Some (Z.testbit b 0, Z.shiftr b 1).
Proof.
  unfold Bit_getAndRemoveRight.
  rewrite get_in by (unfold BIT_SIZE; lia).
  cbn [bind]. rewrite shr_in by (unfold BIT_SIZE; lia). reflexivity.
Qed.

Lemma addRight_bits rev c :
  0 <= rev ->
  exists rev', Bit_addRight rev c = Some rev' /\ 0 <= rev' /\
    forall j, 0 <= j ->
      Z.testbit rev' j =
      if j =? 0 then c else (j <? BIT_SIZE) && Z.testbit rev (j - 1).
Proof.
  intros H0. unfold Bit_addRight, Bit_shiftLeft.
  rewrite shl_in by (unfold BIT_SIZE; lia). cbn [bind].
  eexists. split; [reflexivity |]. split.
  - apply Z.lor_nonneg. split; [apply wrap_is_bit | destruct c; simpl; lia].
  - intros j Hj. unfold Bit_OR.
    rewrite Z.lor_spec, wrap_testbit, Z.shiftl_spec, b2z_testbit by exact Hj.
    destruct (Z.eqb_spec j 0) as [-> | Hne].
    + rewrite Z.testbit_neg_r by lia. now rewrite andb_false_r, andb_true_r.
    + now rewrite andb_false_r, orb_false_r.
Qed.

Lemma reverse_loop_bits (i : nat) : forall b rev,
  (i <= Z.to_nat BIT_SIZE)%nat -> 0 <= rev ->
  (forall j, BIT_SIZE - Z.of_nat i <= j -> Z.testbit rev j = false) ->
  exists r, reverse_loop i b rev = Some r /\ 0 <= r /\
    forall j, 0 <= j ->
      Z.testbit r j =
      if j <? Z.of_nat i then Z.testbit b (Z.of_nat i - 1 - j)
      else Z.testbit rev (j - Z.of_nat i).
Proof.
  induction i as [| i IH]; intros b rev Hi H0 Hhigh.
  - exists rev. split; [reflexivity |]. split; [exact H0 |].
    intros j Hj. cbn [Z.of_nat]. destruct (Z.ltb_spec j 0); [lia |].
    f_equal. lia.
  - cbn [reverse_loop]. rewrite getAndRemoveRight_eq. cbn [bind].
    destruct (addRight_bits rev (Z.testbit b 0) H0) as (rev' & -> & H0' & Hrev').
    cbn [bind].
    assert (Hn : Z.of_nat (S i) <= BIT_SIZE) by (unfold BIT_SIZE in *; lia).
    destruct (IH (Z.shiftr b 1) rev') as (r & Er & Hr0 & Hr).
    + lia.
    + exact H0'.
    + intros j Hj. rewrite Hrev' by lia.
      destruct (Z.eqb_spec j 0); [lia |].
      rewrite Hhigh by lia. apply andb_false_r.
    + exists r. split; [exact Er |]. split; [exact Hr0 |].
      intros j Hj. rewrite Hr by exact Hj.
      destruct (Z.ltb_spec j (Z.of_nat i)), (Z.ltb_spec j (Z.of_nat (S i)));
        try lia.
      * rewrite Z.shiftr_spec by lia. f_equal. lia.
      * rewrite Hrev' by lia.
        destruct (Z.eqb_spec (j - Z.of_nat i) 0); [f_equal; lia | lia].
      * rewrite Hrev' by lia.
        destruct (Z.eqb_spec (j - Z.of_nat i) 0); [lia |].
        destruct (Z.ltb_spec (j - Z.of_nat i) BIT_SIZE); cbn [andb].
        -- f_equal. lia.
        -- symmetry. apply Hhigh. lia.
Qed.

Lemma reverse_bits b :
  exists r, Bit_reverse b = Some r /\ is_bit r /\
    forall j, 0 <= j < BIT_SIZE ->
      Z.testbit r j = Z.testbit b (BIT_SIZE - 1 - j).
Proof.
  unfold Bit_reverse.
  destruct (reverse_loop_bits (Z.to_nat BIT_SIZE) b 0) as (r & -> & Hr0 & Hr).
  - lia.
  - lia.
  - intros j _. apply Z.testbit_0_l.
  - exists r. split; [reflexivity |].
    rewrite Z2Nat.id in Hr by (unfold BIT_SIZE; lia). split.
    + apply is_bit_intro; [| exact Hr0].
      intros j Hj Hge. rewrite Hr by exact Hj.
      destruct (Z.ltb_spec j BIT_SIZE); [lia | apply Z.testbit_0_l].
    + intros j Hj. rewrite Hr by lia.
      destruct (Z.ltb_spec j BIT_SIZE); [reflexivity | lia].
Qed.

Lemma reverse_involutive b :
  is_bit b -> exists r, Bit_reverse b = Some r /\ is_bit r /\ Bit_reverse r = Some b.
Proof.
  intros Hb. destruct (reverse_bits b) as (r & Er & Hrb & Hr).
  exists r. split; [exact Er |]. split; [exact Hrb |].
  destruct (reverse_bits r) as (r' & -> & Hrb' & Hr').
  f_equal. apply is_bit_ext; [assumption .. |].
  intros j Hj. rewrite Hr', Hr by lia. f_equal. lia.
Qed.

(** C5.  For every register [b], [reverse(reverse(b)) = b], and bit [i] of
    [reverse(b)] is bit [N + 1 - i] of [b] for every index [i] in [1, N].
    Zero and the register with all bits set go through the same loop; they
    are their own mirror images. *)
Theorem reverse_mirror_involution :
  (forall b, is_bit b ->
     exists r,
       Bit_reverse b = Some r /\
       Bit_reverse r = Some b /\
       forall i, 1 <= i <= BIT_SIZE ->
         Bit_get r i = Bit_get b (BIT_SIZE + 1 - i)) /\
  Bit_reverse 0 = Some 0 /\
  Bit_reverse (2 ^ BIT_SIZE - 1) = Some (2 ^ BIT_SIZE - 1).
Proof.
  split; [| split; reflexivity].
  intros b Hb. destruct (reverse_involutive b Hb) as (r & Er & _ & Err).
  exists r. split; [exact Er |]. split; [exact Err |].
  intros i Hi. destruct (reverse_bits b) as (r' & Er' & _ & Hr').
  rewrite Er in Er'. injection Er' as <-.
  rewrite !get_in by lia. rewrite Hr' by lia. do 2 f_equal. lia.
Qed.

Lemma reverse_mirror_involution_witness :
  exists r,
    Bit_reverse 6 = Some r /\
    Bit_reverse r = Some 6 /\
    forall i, 1 <= i <= BIT_SIZE ->
      Bit_get r i = Bit_get 6 (BIT_SIZE + 1 - i).
Proof.
  apply (proj1 reverse_mirror_involution 6).
  unfold is_bit. simpl. lia.
Defined.

(* ------------------------------------------------------------------ *)
(** ** Counting *)

Lemma popcount_0 n : popcount n 0 = 0.
Proof. induction n as [| n IH]; [reflexivity |]. cbn [popcount]. now rewrite Z.shiftr_0_l, IH. Qed.

Lemma halve_bound n b : 0 <= b < 2 ^ Z.of_nat (S n) -> 0 <= Z.shiftr b 1 < 2 ^ Z.of_nat n.
Proof.
  intros H. rewrite Z.shiftr_div_pow2 by lia. change (2 ^ 1) with 2.
  rewrite Nat2Z.inj_succ, Z.pow_succ_r in H by lia.
  split; [apply Z.div_pos; lia | apply Z.div_lt_upper_bound; lia].
Qed.

Lemma count1_loop_popcount (fuel : nat) : forall (n : nat) b i,
  (n <= fuel)%nat -> 0 <= b < 2 ^ Z.of_nat n ->
  count1_loop fuel b i = Some (i + popcount n b).
Proof.
  induction fuel as [| fuel IH]; intros n b i Hn Hb.
  - assert (n = O) by lia. subst n. assert (b = 0) by (simpl in Hb; lia). subst b.
    cbn. f_equal. lia.
  - cbn [count1_loop]. destruct (Z.eqb_spec b 0) as [-> | Hne].
    + rewrite popcount_0. f_equal. lia.
    + destruct n as [| n]; [simpl in Hb; lia |].
      rewrite getAndRemoveRight_eq. cbn [bind].
      rewrite (IH n) by (lia || now apply halve_bound).
      cbn [popcount]. destruct (Z.testbit b 0); cbn [Z.b2z]; f_equal; lia.
Qed.

Lemma toggleAll_eq b : is_bit b -> Bit_toggleAll b = 2 ^ BIT_SIZE - 1 - b.
Proof.
  intros Hb. unfold Bit_toggleAll, C.not, wrap. symmetry.
  apply Z.mod_unique_pos with (q := -1); [unfold is_bit in Hb; lia |].
  unfold Z.lnot. lia.
Qed.

Lemma popcount_complement (n : nat) : forall b,
  0 <= b < 2 ^ Z.of_nat n ->
  popcount n b + popcount n (2 ^ Z.of_nat n - 1 - b) = Z.of_nat n.
Proof.
  induction n as [| n IH]; intros b Hb; [reflexivity |].
  cbn [popcount]. rewrite !Z.bit0_mod.
  pose proof (halve_bound n b Hb) as Hh. specialize (IH _ Hh).
  rewrite !Z.shiftr_div_pow2 in * by lia. change (2 ^ 1) with 2 in *.
  rewrite Nat2Z.inj_succ, Z.pow_succ_r in * by lia.
  replace ((2 * 2 ^ Z.of_nat n - 1 - b) / 2) with (2 ^ Z.of_nat n - 1 - b / 2)
    by (Z.div_mod_to_equations; lia).
  replace ((2 * 2 ^ Z.of_nat n - 1 - b) mod 2) with (1 - b mod 2)
    by (Z.div_mod_to_equations; lia).
  lia.
Qed.

(** The loop of [Bit_count1] is over within [BIT_SIZE] iterations: more fuel
    changes nothing. *)
Lemma count1_fuel b fuel :
  is_bit b -> (Z.to_nat BIT_SIZE <= fuel)%nat ->
  Bit_count1_fuel fuel b = Some (popcount (Z.to_nat BIT_SIZE) b).
Proof.
  intros Hb Hf. unfold Bit_count1_fuel.
  rewrite (count1_loop_popcount fuel (Z.to_nat BIT_SIZE)); [reflexivity | exact Hf |].
  rewrite Z2Nat.id by (unfold BIT_SIZE; lia). exact Hb.
Qed.

(** C8.  For every register [b], the numbers of bits set in [b] and in
    [toggleAll(b)] add up to [N]. *)
Theorem count1_toggleAll_sum b :
  is_bit b ->
  exists c1 c2,
    Bit_count1 b = Some c1 /\
    Bit_count1 (Bit_toggleAll b) = Some c2 /\
    c1 + c2 = BIT_SIZE.
Proof.
  intros Hb. unfold Bit_count1.
  assert (Hc : is_bit (Bit_toggleAll b)) by apply wrap_is_bit.
  rewrite !count1_fuel by (assumption || lia).
  eexists. eexists. split; [reflexivity |]. split; [reflexivity |].
  rewrite toggleAll_eq by exact Hb.
  pose proof (popcount_complement (Z.to_nat BIT_SIZE) b) as H.
  rewrite Z2Nat.id in H by (unfold BIT_SIZE; lia). apply H, Hb.
Qed.

Lemma count1_toggleAll_sum_witness :
  exists c1 c2,
    Bit_count1 255 = Some c1 /\
    Bit_count1 (Bit_toggleAll 255) = Some c2 /\
    c1 + c2 = BIT_SIZE.
Proof.
  apply (count1_toggleAll_sum 255).
  unfold is_bit. simpl. lia.
Defined.

(* ------------------------------------------------------------------ *)
(** ** Binary text *)

Lemma bin_text_length n b : String.length (bin_text n b) = n.
Proof. induction n as [| n IH]; [reflexivity |]. cbn. now rewrite IH. Qed.

Lemma store_in s i c :
  (i < extent s)%nat ->
  store s i c =
  Some {| extent := extent s;
          cell := fun j => if Nat.eqb j i then Some c else cell s j |}.
Proof.
  intros H. unfold store.
  destruct (Nat.ltb_spec i (extent s)); [reflexivity | lia].
Qed.

Lemma load_in s i : (i < extent s)%nat -> load s i = cell s i.
Proof.
  intros H. unfold load.
  destruct (Nat.ltb_spec i (extent s)); [reflexivity | lia].
Qed.

Lemma toStringBinMSB_loop_cells (i : nat) : forall b s,
  (i <= extent s)%nat ->
  exists m, toStringBinMSB_loop i b s = Some m /\
    extent m = extent s /\
    forall j : nat,
      cell m j = if (j <? i)%nat
                 then Some (if Z.testbit b (Z.of_nat (i - 1 - j)) then "1" else "0")%char
                 else cell s j.
Proof.
  induction i as [| i IH]; intros b s Hi.
  - exists s. split; [reflexivity |]. split; [reflexivity |].
    intros j. reflexivity.
  - cbn [toStringBinMSB_loop]. rewrite getAndRemoveRight_eq. cbn [bind].
    rewrite store_in by lia. cbn [bind].
    destruct (IH (Z.shiftr b 1)
                {| extent := extent s;
                   cell := fun j =>
                     if Nat.eqb j i
                     then Some (if Z.testbit b 0 then "1" else "0")%char
                     else cell s j |})
      as (m & -> & He & Hm); [cbn [extent]; lia |].
    exists m. split; [reflexivity |]. split; [exact He |].
    intros j. rewrite Hm. cbn [cell].
    destruct (Nat.ltb_spec j i), (Nat.ltb_spec j (S i)); try lia.
    + rewrite Z.shiftr_spec by lia.
      replace (Z.of_nat (i - 1 - j) + 1) with (Z.of_nat (S i - 1 - j)) by lia.
      reflexivity.
    + destruct (Nat.eqb_spec j i); [| lia]. subst j.
      replace (S i - 1 - i)%nat with O by lia. reflexivity.
    + destruct (Nat.eqb_spec j i); [lia | reflexivity].
Qed.

Lemma string_at_bin_text (n : nat) : forall (m : chars) b (k fuel : nat),
  (k + n < extent m)%nat ->
  (forall j : nat, (j < n)%nat ->
     cell m (k + j)%nat =
     Some (if Z.testbit b (Z.of_nat (n - 1 - j)) then "1" else "0")%char) ->
  cell m (k + n)%nat = Some zero ->
  (n < fuel)%nat ->
  string_at fuel m k = Some (bin_text n b).
Proof.
  induction n as [| n IH]; intros m b k fuel Hext Hcells Hnul Hfuel.
  - destruct fuel as [| fuel]; [lia |]. cbn [string_at].
    rewrite load_in by lia.
    rewrite Nat.add_0_r in Hnul. rewrite Hnul. reflexivity.
  - destruct fuel as [| fuel]; [lia |]. cbn [string_at bin_text].
    rewrite load_in by lia.
    pose proof (Hcells O ltac:(lia)) as H0.
    rewrite Nat.add_0_r in H0. rewrite H0. cbn [bind].
    replace (S n - 1 - 0)%nat with n by lia.
    rewrite (IH m b (S k) fuel).
    + destruct (Z.testbit b (Z.of_nat n)); reflexivity.
    + lia.
    + intros j Hj. replace (S k + j)%nat with (k + S j)%nat by lia.
      rewrite Hcells by lia.
      replace (S n - 1 - S j)%nat with (n - 1 - j)%nat by lia. reflexivity.
    + replace (S k + n)%nat with (k + S n)%nat by lia. exact Hnul.
    + lia.
Qed.

(** On a block with room for the terminator the function leaves the [N]
    digits of [b] and the terminator behind them. *)
Lemma toStringBinMSB_sized_text size b :
  (Z.to_nat BIT_SIZE < size)%nat ->
  exists m, toStringBinMSB_sized size b = Some m /\
    forall fuel, (Z.to_nat BIT_SIZE < fuel)%nat ->
      string_at fuel m 0 = Some (bin_text (Z.to_nat BIT_SIZE) b).
Proof.
  intros Hsize. unfold toStringBinMSB_sized.
  rewrite store_in by (cbn [malloc extent]; exact Hsize). cbn [bind].
  match goal with
  | |- context [toStringBinMSB_loop _ _ ?s0] =>
      destruct (toStringBinMSB_loop_cells (Z.to_nat BIT_SIZE) b s0)
        as (m & -> & He & Hm); [cbn [extent malloc]; lia |]
  end.
  cbn [extent malloc] in He.
  exists m. split; [reflexivity |]. intros fuel Hf.
  apply string_at_bin_text; [| | | exact Hf].
  - cbn [Nat.add]. lia.
  - intros j Hj. cbn [Nat.add]. rewrite Hm.
    destruct (Nat.ltb_spec j (Z.to_nat BIT_SIZE)); [reflexivity | lia].
  - cbn [Nat.add]. rewrite Hm.
    destruct (Nat.ltb_spec (Z.to_nat BIT_SIZE) (Z.to_nat BIT_SIZE)); [lia |].
    cbn [cell]. now rewrite Nat.eqb_refl.
Qed.

Lemma fromStringMSB_loop_digit (v : bool) s acc :
  fromStringMSB_loop (String (if v then "1" else "0")%char s) acc =
  (b' <- Bit_addRight acc v ;; fromStringMSB_loop s b').
Proof. destruct v; reflexivity. Qed.

Lemma fromStringMSB_loop_bin_text (n : nat) : forall b acc,
  (n <= Z.to_nat BIT_SIZE)%nat -> 0 <= acc ->
  (forall j, BIT_SIZE - Z.of_nat n <= j -> Z.testbit acc j = false) ->
  exists r, fromStringMSB_loop (bin_text n b) acc = Some r /\ 0 <= r /\
    forall j, 0 <= j ->
      Z.testbit r j =
      if j <? Z.of_nat n then Z.testbit b j else Z.testbit acc (j - Z.of_nat n).
Proof.
  induction n as [| n IH]; intros b acc Hn H0 Hhigh.
  - exists acc. split; [reflexivity |]. split; [exact H0 |].
    intros j Hj. cbn [Z.of_nat]. destruct (Z.ltb_spec j 0); [lia |].
    f_equal. lia.
  - cbn [bin_text]. rewrite fromStringMSB_loop_digit.
    destruct (addRight_bits acc (Z.testbit b (Z.of_nat n)) H0)
      as (acc' & Eacc & H0' & Hacc').
    assert (Hle : Z.of_nat (S n) <= BIT_SIZE) by (unfold BIT_SIZE in *; lia).
    destruct (IH b acc') as (r & Er & Hr0 & Hr).
    + lia.
    + exact H0'.
    + intros j Hj. rewrite Hacc' by lia.
      destruct (Z.eqb_spec j 0); [lia |].
      rewrite Hhigh by lia. apply andb_false_r.
    + exists r. split; [| split; [exact Hr0 |]].
      * rewrite Eacc. cbn [bind]. exact Er.
      * intros j Hj. rewrite Hr by exact Hj.
        destruct (Z.ltb_spec j (Z.of_nat n)), (Z.ltb_spec j (Z.of_nat (S n)));
          try lia; try reflexivity.
        -- rewrite Hacc' by lia.
           destruct (Z.eqb_spec (j - Z.of_nat n) 0); [f_equal; lia | lia].
        -- rewrite Hacc' by lia.
           destruct (Z.eqb_spec (j - Z.of_nat n) 0); [lia |].
           destruct (Z.ltb_spec (j - Z.of_nat n) BIT_SIZE); cbn [andb].
           ++ f_equal. lia.
           ++ symmetry. apply Hhigh. lia.
Qed.

Lemma fromStringMSB_bin_text b :
  is_bit b -> Bit_fromStringMSB (bin_text (Z.to_nat BIT_SIZE) b) = Some b.
Proof.
  intros Hb. unfold Bit_fromStringMSB.
  destruct (fromStringMSB_loop_bin_text (Z.to_nat BIT_SIZE) b 0)
    as (r & -> & Hr0 & Hr).
  - lia.
  - lia.
  - intros j _. apply Z.testbit_0_l.
  - f_equal. rewrite Z2Nat.id in Hr by (unfold BIT_SIZE; lia).
    apply is_bit_ext; [| exact Hb |].
    + apply is_bit_intro; [| exact Hr0].
      intros j Hj Hge. rewrite Hr by exact Hj.
      destruct (Z.ltb_spec j BIT_SIZE); [lia | apply Z.testbit_0_l].
    + intros j Hj. rewrite Hr by lia.
      destruct (Z.ltb_spec j BIT_SIZE); [reflexivity | lia].
Qed.

(** With room for the terminator, that is on a block of more than [N]
    bytes, the text left in memory has [N] characters and is read back:
    [fromStringMSB] returns [b] from the text for [b], and [fromStringLSB]
    returns [b] from the text for [reverse(b)]. *)
Lemma binary_text_round_trip_with_room size b :
  is_bit b -> (Z.to_nat BIT_SIZE < size)%nat ->
  (exists m s,
     toStringBinMSB_sized size b = Some m /\
     (forall fuel, (Z.to_nat BIT_SIZE < fuel)%nat ->
        string_at fuel m 0 = Some s) /\
     String.length s = Z.to_nat BIT_SIZE /\
     Bit_fromStringMSB s = Some b) /\
  (exists r m s,
     Bit_reverse b = Some r /\
     toStringBinMSB_sized size r = Some m /\
     (forall fuel, (Z.to_nat BIT_SIZE < fuel)%nat ->
        string_at fuel m 0 = Some s) /\
     String.length s = Z.to_nat BIT_SIZE /\
     Bit_fromStringLSB s = Some b).
Proof.
  intros Hb Hsize. split.
  - destruct (toStringBinMSB_sized_text size b Hsize) as (m & Em & Hm).
    exists m, (bin_text (Z.to_nat BIT_SIZE) b).
    split; [exact Em |]. split; [exact Hm |].
    split; [apply bin_text_length | now apply fromStringMSB_bin_text].
  - destruct (reverse_involutive b Hb) as (r & Er & Hrb & Err).
    destruct (toStringBinMSB_sized_text size r Hsize) as (m & Em & Hm).
    exists r, m, (bin_text (Z.to_nat BIT_SIZE) r).
    split; [exact Er |]. split; [exact Em |].
    split; [exact Hm |]. split; [apply bin_text_length |].
    unfold Bit_fromStringLSB. now rewrite fromStringMSB_bin_text.
Qed.

(** C3.  The block [toStringBinMSB] asks for has [N] bytes and the function
    begins by storing the terminator at index [N], past its end: neither
    it nor [toStringBinLSB], which calls it, has a defined result, on any
    register, and there is no text to read back. *)
Theorem toStringBin_terminator_past_block b :
  store (malloc (Z.to_nat BIT_SIZE * 1)) (Z.to_nat BIT_SIZE) zero = None /\
  Bit_toStringBinMSB b = None /\
  Bit_toStringBinLSB b = None.
Proof.
  split; [reflexivity |]. split; [reflexivity |].
  unfold Bit_toStringBinLSB. destruct (Bit_reverse b); reflexivity.
Qed.

Lemma fromStringMSB_loop_recognized (s : string) : forall acc,
  (List.length (recognized s) <= Z.to_nat BIT_SIZE)%nat -> 0 <= acc ->
  (forall j, BIT_SIZE - Z.of_nat (List.length (recognized s)) <= j ->
     Z.testbit acc j = false) ->
  exists r, fromStringMSB_loop s acc = Some r /\ 0 <= r /\
    forall j, 0 <= j ->
      Z.testbit r j =
      if j <? Z.of_nat (List.length (recognized s))
      then nth (List.length (recognized s) - 1 - Z.to_nat j) (recognized s) false
      else Z.testbit acc (j - Z.of_nat (List.length (recognized s))).
Proof.
  assert (Hstop : forall acc, 0 <= acc ->
            exists r, Some acc = Some r /\ 0 <= r /\
              forall j, 0 <= j ->
                Z.testbit r j =
                if j <? Z.of_nat (@List.length bool [])
                then nth (@List.length bool [] - 1 - Z.to_nat j) [] false
                else Z.testbit acc (j - Z.of_nat (@List.length bool []))).
  { intros acc H0. exists acc. split; [reflexivity |]. split; [exact H0 |].
    intros j Hj. cbn [List.length Z.of_nat].
    destruct (Z.ltb_spec j 0); [lia |]. f_equal. lia. }
  induction s as [| c s IH]; intros acc Hk H0 Hhigh.
  - now apply Hstop.
  - cbn [fromStringMSB_loop recognized] in *.
    destruct (Ascii.eqb c zero); [now apply Hstop |].
    assert (Hdigit : forall v : bool,
              (S (List.length (recognized s)) <= Z.to_nat BIT_SIZE)%nat ->
              (forall j, BIT_SIZE - Z.of_nat (S (List.length (recognized s))) <= j ->
                 Z.testbit acc j = false) ->
              exists r,
                (b' <- Bit_addRight acc v ;; fromStringMSB_loop s b') = Some r /\
                0 <= r /\
                forall j, 0 <= j ->
                  Z.testbit r j =
                  if j <? Z.of_nat (S (List.length (recognized s)))
                  then nth (S (List.length (recognized s)) - 1 - Z.to_nat j)
                           (v :: recognized s) false
                  else Z.testbit acc (j - Z.of_nat (S (List.length (recognized s))))).
    { intros v Hk' Hhigh'.
      destruct (addRight_bits acc v H0) as (acc' & -> & H0' & Hacc').
      cbn [bind].
      assert (Hle : Z.of_nat (S (List.length (recognized s))) <= BIT_SIZE)
        by (unfold BIT_SIZE in *; lia).
      destruct (IH acc') as (r & Er & Hr0 & Hr).
      - lia.
      - exact H0'.
      - intros j Hj. rewrite Hacc' by lia.
        destruct (Z.eqb_spec j 0); [lia |].
        rewrite Hhigh' by lia. apply andb_false_r.
      - exists r. split; [exact Er |]. split; [exact Hr0 |].
        intros j Hj. rewrite Hr by exact Hj.
        set (k := List.length (recognized s)) in *.
        destruct (Z.ltb_spec j (Z.of_nat k)), (Z.ltb_spec j (Z.of_nat (S k)));
          try lia.
        + replace (S k - 1 - Z.to_nat j)%nat with (S (k - 1 - Z.to_nat j)) by lia.
          reflexivity.
        + rewrite Hacc' by lia.
          destruct (Z.eqb_spec (j - Z.of_nat k) 0); [| lia].
          replace (S k - 1 - Z.to_nat j)%nat with O by lia. reflexivity.
        + rewrite Hacc' by lia.
          destruct (Z.eqb_spec (j - Z.of_nat k) 0); [lia |].
          destruct (Z.ltb_spec (j - Z.of_nat k) BIT_SIZE); cbn [andb].
          * f_equal. lia.
          * symmetry. apply Hhigh'. lia. }
    destruct (Ascii.eqb_spec c "1") as [-> | Hn1].
    { cbn [orb List.length] in *. apply (Hdigit true); assumption. }
    destruct (Ascii.eqb_spec c "0") as [-> | Hn0].
    { cbn [orb List.length] in *. apply (Hdigit false); assumption. }
    cbn [orb]. now apply IH.
Qed.

(** The bits of [fromStringLSB(s)] when [s] has [k <= N] recognized
    characters: the [N - k] low bits are zero and the characters follow, the
    first of them at index [N - k + 1]. *)
Lemma fromStringLSB_bits s :
  (List.length (recognized s) <= Z.to_nat BIT_SIZE)%nat ->
  exists r, Bit_fromStringLSB s = Some r /\ is_bit r /\
    forall i, 1 <= i <= BIT_SIZE ->
      Bit_get r i =
      Some (if i <=? BIT_SIZE - Z.of_nat (List.length (recognized s)) then false
            else nth (Z.to_nat (i - 1 - (BIT_SIZE - Z.of_nat (List.length (recognized s)))))
                     (recognized s) false).
Proof.
  intros Hk. unfold Bit_fromStringLSB, Bit_fromStringMSB.
  destruct (fromStringMSB_loop_recognized s 0 Hk ltac:(lia))
    as (v & -> & Hv0 & Hv).
  { intros j _. apply Z.testbit_0_l. }
  cbn [bind]. destruct (reverse_bits v) as (r & -> & Hrb & Hr).
  exists r. split; [reflexivity |]. split; [exact Hrb |].
  intros i Hi. rewrite get_in by exact Hi. f_equal.
  rewrite Hr, Hv by (unfold BIT_SIZE in *; lia).
  set (k := List.length (recognized s)) in *.
  assert (Z.of_nat k <= BIT_SIZE) by (unfold BIT_SIZE in *; lia).
  destruct (Z.ltb_spec (BIT_SIZE - 1 - (i - 1)) (Z.of_nat k)),
    (Z.leb_spec i (BIT_SIZE - Z.of_nat k)); try lia.
  - f_equal. lia.
  - rewrite Z.testbit_0_l. reflexivity.
Qed.

(** With exactly [N] recognized characters the first one is the least
    significant bit. *)
Corollary fromStringLSB_full_width s :
  List.length (recognized s) = Z.to_nat BIT_SIZE ->
  exists r, Bit_fromStringLSB s = Some r /\
    forall i, 1 <= i <= BIT_SIZE ->
      Bit_get r i = Some (nth (Z.to_nat (i - 1)) (recognized s) false).
Proof.
  intros Hk. destruct (fromStringLSB_bits s) as (r & Er & _ & Hr); [lia |].
  exists r. split; [exact Er |]. intros i Hi. rewrite Hr by exact Hi.
  rewrite Hk, Z2Nat.id by (unfold BIT_SIZE; lia).
  destruct (Z.leb_spec i (BIT_SIZE - BIT_SIZE)); [lia |].
  do 2 f_equal. lia.
Qed.

(** C4.  On the text "101" [fromStringLSB] does not return 5: the three
    characters end up in the three most significant bits. *)
Theorem fromStringLSB_101 :
  recognized "101" = [true; false; true] /\
  Bit_fromStringMSB "101" = Some 5 /\
  Bit_fromStringLSB "101" = Some 11529215046068469760 /\
  Bit_fromStringLSB "101" <> Some 5 /\
  (r <- Bit_fromStringLSB "101" ;; Bit_get r 1) = Some false.
Proof.
  split; [reflexivity |]. split; [reflexivity |]. split; [reflexivity |].
  split; [vm_compute; discriminate | reflexivity].
Qed.

(* ------------------------------------------------------------------ *)
(** ** Hexadecimal output *)

Local Open Scope string_scope.

Lemma append_assoc (a b c : string) : (a ++ b) ++ c = a ++ (b ++ c).
Proof. induction a as [| x a IH]; [reflexivity |]. cbn. now rewrite IH. Qed.

Lemma hex_text_length n v : String.length (hex_text n v) = n.
Proof. induction n as [| n IH]; [reflexivity |]. cbn. now rewrite IH. Qed.

Lemma hex_text_snoc (k : nat) : forall v,
  hex_text (S k) v =
  hex_text k (v / 16) ++ String (hex_digit (v mod 16)) EmptyString.
Proof.
  induction k as [| k IH]; intros v.
  - cbn [hex_text Z.of_nat append]. now rewrite Z.pow_0_r, Z.div_1_r.
  - change (hex_text (S (S k)) v)
      with (String (hex_digit ((v / 16 ^ Z.of_nat (S k)) mod 16))
                   (hex_text (S k) v)).
    rewrite IH. cbn [hex_text append]. f_equal. f_equal. f_equal.
    rewrite Nat2Z.inj_succ, Z.pow_succ_r by lia.
    rewrite Z.div_div by (try apply Z.pow_pos_nonneg; lia). reflexivity.
Qed.

Lemma hex_digits_text (fuel : nat) : forall v acc,
  0 <= v < 16 ^ Z.of_nat fuel ->
  exists k : nat,
    (k <= fuel)%nat /\ v < 16 ^ Z.of_nat k /\
    hex_digits fuel v acc = hex_text k v ++ acc.
Proof.
  induction fuel as [| fuel IH]; intros v acc Hv.
  - exists O. split; [lia |]. split; [exact (proj2 Hv) | reflexivity].
  - cbn [hex_digits]. destruct (Z.eqb_spec v 0) as [-> | Hne].
    + exists O. split; [lia |]. split; [reflexivity | reflexivity].
    + rewrite Nat2Z.inj_succ, Z.pow_succ_r in Hv by lia.
      destruct (IH (v / 16) (String (hex_digit (v mod 16)) acc))
        as (k & Hk & Hlt & ->).
      * split; [apply Z.div_pos; lia | apply Z.div_lt_upper_bound; lia].
      * exists (S k). split; [lia |]. split.
        -- rewrite Nat2Z.inj_succ, Z.pow_succ_r by lia.
           Z.div_mod_to_equations. lia.
        -- rewrite hex_text_snoc, append_assoc. reflexivity.
Qed.

Lemma hex_text_pad (n : nat) : forall (k : nat) v,
  (k <= n)%nat -> 0 <= v < 16 ^ Z.of_nat k ->
  hex_text n v = replicate (n - k) "0" ++ hex_text k v.
Proof.
  induction n as [| n IH]; intros k v Hk Hv.
  - assert (k = O) by lia. subst k. reflexivity.
  - destruct (Nat.eq_dec k (S n)) as [-> | Hne].
    + rewrite Nat.sub_diag. reflexivity.
    + replace (S n - k)%nat with (S (n - k)) by lia.
      cbn [hex_text replicate append]. rewrite <- (IH k v) by (lia || exact Hv).
      f_equal. rewrite Z.div_small; [reflexivity |].
      split; [lia |]. apply Z.lt_le_trans with (16 ^ Z.of_nat k); [lia |].
      apply Z.pow_le_mono_r; lia.
Qed.

Lemma printf_llX_nonzero v :
  0 < v < 16 ^ 16 ->
  printf_llX true true 18 v = "0X" ++ hex_text 16 v.
Proof.
  intros Hv. unfold printf_llX.
  destruct (Z.eqb_spec v 0) as [-> | _]; [lia |]. cbn [andb negb].
  destruct (hex_digits_text 16 v EmptyString) as (k & Hk & Hlt & ->).
  { change (Z.of_nat 16) with 16. lia. }
  assert (Hnil : forall s, s ++ EmptyString = s).
  { induction s as [| x s IH]; [reflexivity |]. cbn. now rewrite IH. }
  rewrite Hnil, hex_text_length.
  rewrite (hex_text_pad 16 k v) by lia.
  change (String.length "0X") with 2%nat.
  replace (18 - 2 - k)%nat with (16 - k)%nat by lia. reflexivity.
Qed.

(** For every nonzero register [b], [printHex(b)] adds 18 characters to
    the output: [0X], then [b] in 16 uppercase hexadecimal digits with
    leading zeros. *)
Lemma printHex_nonzero b out :
  is_bit b -> b <> 0 ->
  Bit_printHex b out = out ++ "0X" ++ hex_text 16 b /\
  String.length ("0X" ++ hex_text 16 b) = 18%nat.
Proof.
  intros Hb Hne. unfold Bit_printHex. split.
  - rewrite printf_llX_nonzero; [reflexivity |].
    unfold is_bit in Hb. change (2 ^ BIT_SIZE) with (16 ^ 16) in Hb. lia.
  - cbn [append String.length]. now rewrite hex_text_length.
Qed.

Lemma printHex_nonzero_witness :
  Bit_printHex 48879 "" = "" ++ "0X" ++ hex_text 16 48879 /\
  String.length ("0X" ++ hex_text 16 48879) = 18%nat.
Proof.
  apply (printHex_nonzero 48879 "").
  - unfold is_bit. simpl. lia.
  - discriminate.
Defined.

(** C9.  For the register 0, [printHex] writes eighteen zeros: the [#]
    flag puts its prefix in front of a nonzero result only, so there is no
    prefix and there are 18 digits, not 16.  For 255 the prefix is there,
    as [0X]. *)
Theorem printHex_zero_has_no_prefix :
  Bit_printHex 0 "" = "000000000000000000" /\
  Bit_printHex 0 "" <> "0x" ++ hex_text 16 0 /\
  Bit_printHex 0 "" <> "0X" ++ hex_text 16 0 /\
  Bit_printHex 255 "" = "0X00000000000000FF".
Proof.
  split; [reflexivity |].
  split; [vm_compute; discriminate |].
  split; [vm_compute; discriminate | reflexivity].
Qed.

(* ------------------------------------------------------------------ *)
(** ** Runs on concrete registers *)

Example hex_text_255 : hex_text 16 255 = "00000000000000FF".
Proof. reflexivity. Qed.

Example fromStringMSB_skips : Bit_fromStringMSB "1x0 1" = Some 5%Z.
Proof. reflexivity. Qed.

Example toStringBinMSB_sized_1 :
  (m <- toStringBinMSB_sized 65 1 ;; string_at 65 m 0) =
  Some "0000000000000000000000000000000000000000000000000000000000000001".
Proof. reflexivity. Qed.

Example count1_all_ones : Bit_count1 (2 ^ BIT_SIZE - 1)%Z = Some 64%Z.
Proof. reflexivity. Qed.

Example toggleAll_all_ones : Bit_toggleAll (2 ^ BIT_SIZE - 1)%Z = 0%Z.
Proof. reflexivity. Qed.

Example rotateRight_1 : Bit_rotateRight 1 1 = Some 9223372036854775808%Z.
Proof. reflexivity. Qed.

Example filterSectionIncl_4_8 :
  Bit_filterSectionIncl 255 4 8 = Some 240%Z.
Proof. reflexivity. Qed.

(* ================================================================== *)
(** * Further properties of the library *)

Local Close Scope string_scope.
Local Open Scope Z_scope.

(* ------------------------------------------------------------------ *)
(** ** Single bits, at any index *)

(** X1.  Whatever the index, in range or clamped, [get] reads 1 at that
    index after [turnOn] and 0 after [turnOff]. *)
Theorem turnOn_turnOff_then_get b n :
  (x <- Bit_turnOn b n ;; Bit_get x n) = Some true /\
  (x <- Bit_turnOff b n ;; Bit_get x n) = Some false.
Proof.
  unfold Bit_turnOn, Bit_turnOff. rewrite mask1_clamp. cbn [bind].
  rewrite !get_clamp. pose proof (clamp_range n) as Hc.
  assert (Hp : Z.testbit (2 ^ (clamp n - 1)) (clamp n - 1) = true)
    by (apply Z.pow2_bits_true; lia).
  split; f_equal; unfold Bit_OR, Bit_AND, C.not.
  - now rewrite Z.lor_spec, Hp, orb_true_r.
  - rewrite Z.land_spec, wrap_testbit, Z.lnot_spec, Hp by lia.
    now rewrite andb_false_r, andb_false_r.
Qed.

(** X2.  Whatever the index, [toggle] flips the bit [get] reads there, and
    toggling twice gives the register back. *)
Theorem toggle_flips_and_undoes b n :
  (x <- Bit_toggle b n ;; Bit_toggle x n) = Some b /\
  (x <- Bit_toggle b n ;; Bit_get x n) = (v <- Bit_get b n ;; Some (negb v)).
Proof.
  unfold Bit_toggle. rewrite mask1_clamp. cbn [bind].
  rewrite !get_clamp. cbn [bind].
  pose proof (clamp_range n) as Hc. unfold Bit_XOR. split; f_equal.
  - now rewrite Z.lxor_assoc, Z.lxor_nilpotent, Z.lxor_0_r.
  - rewrite Z.lxor_spec, Z.pow2_bits_true by lia. apply xorb_true_r.
Qed.

(** X3.  An index outside [1, N] is not refused: 0 acts as index 1 and an
    index above [N] acts as index [N], for [get] and for the three
    mutators alike. *)
Theorem index_outside_range_is_clamped b n :
  (n < 1 ->
     Bit_get b n = Bit_get b 1 /\ Bit_turnOn b n = Bit_turnOn b 1 /\
     Bit_turnOff b n = Bit_turnOff b 1 /\ Bit_toggle b n = Bit_toggle b 1) /\
  (BIT_SIZE < n ->
     Bit_get b n = Bit_get b BIT_SIZE /\
     Bit_turnOn b n = Bit_turnOn b BIT_SIZE /\
     Bit_turnOff b n = Bit_turnOff b BIT_SIZE /\
     Bit_toggle b n = Bit_toggle b BIT_SIZE).
Proof.
  unfold Bit_get, Bit_turnOn, Bit_turnOff, Bit_toggle.
  split; intros H.
  - assert (E : Bit_mask1 n = Bit_mask1 1).
    { rewrite !mask1_clamp. unfold clamp.
      destruct (Z.ltb_spec n 1); [reflexivity | lia]. }
    rewrite E. repeat split.
  - assert (E : Bit_mask1 n = Bit_mask1 BIT_SIZE).
    { rewrite !mask1_clamp. unfold clamp.
      destruct (Z.ltb_spec n 1); [unfold BIT_SIZE in *; lia |].
      destruct (Z.gtb_spec n BIT_SIZE); [reflexivity | lia]. }
    rewrite E. repeat split.
Qed.

(** X4.  [toggleAll] flips every bit [get] reads, undoes itself, and shares
    no bit with its argument. *)
Theorem toggleAll_complement b :
  is_bit b ->
  Bit_toggleAll (Bit_toggleAll b) = b /\
  Bit_AND b (Bit_toggleAll b) = 0 /\
  Bit_OR b (Bit_toggleAll b) = 2 ^ BIT_SIZE - 1 /\
  forall i, 1 <= i <= BIT_SIZE ->
    Bit_get (Bit_toggleAll b) i = (v <- Bit_get b i ;; Some (negb v)).
Proof.
  intros Hb.
  assert (Hc : is_bit (Bit_toggleAll b)) by apply wrap_is_bit.
  assert (Hbits : forall i, 0 <= i < BIT_SIZE ->
            Z.testbit (Bit_toggleAll b) i = negb (Z.testbit b i)).
  { intros i Hi. unfold Bit_toggleAll, C.not.
    rewrite wrap_testbit, Z.lnot_spec by lia.
    destruct (Z.ltb_spec i BIT_SIZE); [reflexivity | lia]. }
  split; [| split; [| split]].
  - rewrite toggleAll_eq by exact Hc. rewrite toggleAll_eq by exact Hb. lia.
  - unfold Bit_AND. apply Z.bits_inj'. intros i Hi.
    rewrite Z.land_spec, Z.testbit_0_l.
    destruct (Z.lt_ge_cases i BIT_SIZE).
    + rewrite Hbits by lia. apply andb_negb_r.
    + rewrite (is_bit_high b) by assumption. reflexivity.
  - unfold Bit_OR. rewrite toggleAll_eq by exact Hb.
    rewrite <- Z.lxor_lor.
    + rewrite <- Z.add_nocarry_lxor; [lia |].
      rewrite <- toggleAll_eq by exact Hb.
      apply Z.bits_inj'. intros i Hi. rewrite Z.land_spec, Z.testbit_0_l.
      destruct (Z.lt_ge_cases i BIT_SIZE).
      * rewrite Hbits by lia. apply andb_negb_r.
      * rewrite (is_bit_high b) by assumption. reflexivity.
    + rewrite <- toggleAll_eq by exact Hb.
      apply Z.bits_inj'. intros i Hi. rewrite Z.land_spec, Z.testbit_0_l.
      destruct (Z.lt_ge_cases i BIT_SIZE).
      * rewrite Hbits by lia. apply andb_negb_r.
      * rewrite (is_bit_high b) by assumption. reflexivity.
  - intros i Hi. rewrite !get_in by exact Hi. cbn [bind]. f_equal.
    apply Hbits. lia.
Qed.

Lemma toggleAll_complement_witness :
  Bit_toggleAll (Bit_toggleAll 10) = 10 /\
  Bit_AND 10 (Bit_toggleAll 10) = 0 /\
  Bit_OR 10 (Bit_toggleAll 10) = 2 ^ BIT_SIZE - 1 /\
  forall i, 1 <= i <= BIT_SIZE ->
    Bit_get (Bit_toggleAll 10) i = (v <- Bit_get 10 i ;; Some (negb v)).
Proof.
  apply (toggleAll_complement 10). unfold is_bit. simpl. lia.
Defined.

(* ------------------------------------------------------------------ *)
(** ** Filters *)

(** [size_t] subtraction from [BIT_SIZE] wraps for a larger operand, and
    the result is then no shift count. *)
Lemma sub_out n :
  BIT_SIZE < n < 2 ^ BIT_SIZE -> BIT_SIZE <= C.sub BIT_SIZE n.
Proof.
  intros H. unfold C.sub, wrap.
  rewrite <- (Z.mod_add _ 1) by (unfold BIT_SIZE; lia).
  rewrite Z.mod_small; unfold BIT_SIZE in *; lia.
Qed.

Lemma filterRight_undefined b n :
  is_size_t n -> n = 0 \/ BIT_SIZE < n -> Bit_filterRight b n = None.
Proof.
  intros Hn H. unfold Bit_filterRight, Bit_shiftLeft.
  rewrite shl_out; [reflexivity |].
  destruct H as [-> | H]; [vm_compute; discriminate |].
  apply sub_out. unfold is_size_t in Hn. lia.
Qed.

Lemma filterLeft_undefined b n :
  is_size_t n -> n = 0 \/ BIT_SIZE < n -> Bit_filterLeft b n = None.
Proof.
  intros Hn H. unfold Bit_filterLeft, Bit_shiftRight.
  rewrite shr_out; [reflexivity |].
  destruct H as [-> | H]; [vm_compute; discriminate |].
  apply sub_out. unfold is_size_t in Hn. lia.
Qed.

Lemma filterRight_mod b n :
  1 <= n <= BIT_SIZE -> Bit_filterRight b n = Some (b mod 2 ^ n).
Proof.
  intros H. destruct (filterRight_in b n H) as (r & -> & Hr & Hbits).
  f_equal. apply Z.bits_inj'. intros i Hi.
  rewrite Hbits, Z.testbit_mod_pow2 by lia. reflexivity.
Qed.

(** X5.  [filterRight(b, n)] is [b mod 2^n] for [1 <= n <= N].  It has no
    result for [n = 0] and for [n > N]: the shift count [BIT_SIZE - n] is
    then [N] or, after wrapping, larger. *)
Theorem filterRight_keeps_low_bits b n :
  is_bit b -> is_size_t n ->
  (1 <= n <= BIT_SIZE -> Bit_filterRight b n = Some (b mod 2 ^ n)) /\
  (n = 0 \/ BIT_SIZE < n -> Bit_filterRight b n = None).
Proof.
  intros Hb Hn. split; [apply filterRight_mod | now apply filterRight_undefined].
Qed.

Lemma filterRight_keeps_low_bits_witness :
  (1 <= 3 <= BIT_SIZE -> Bit_filterRight 29 3 = Some (29 mod 2 ^ 3)) /\
  (3 = 0 \/ BIT_SIZE < 3 -> Bit_filterRight 29 3 = None).
Proof.
  apply (filterRight_keeps_low_bits 29 3).
  - unfold is_bit. simpl. lia.
  - unfold is_size_t. simpl. lia.
Defined.

(** X6.  [filterLeft(b, n)] is [b] without its [N - n] low bits,
    [b - b mod 2^(N - n)], for [1 <= n <= N].  It has no result for
    [n = 0] and for [n > N]. *)
Theorem filterLeft_keeps_high_bits b n :
  is_bit b -> is_size_t n ->
  (1 <= n <= BIT_SIZE ->
     Bit_filterLeft b n = Some (b - b mod 2 ^ (BIT_SIZE - n))) /\
  (n = 0 \/ BIT_SIZE < n -> Bit_filterLeft b n = None).
Proof.
  intros Hb Hn. split; [| now apply filterLeft_undefined].
  intros H. destruct (filterLeft_in b n H Hb) as (r & -> & Hr & Hbits).
  f_equal. apply is_bit_ext; [exact Hr | |].
  - pose proof (Z.mod_pos_bound b (2 ^ (BIT_SIZE - n))
                  ltac:(apply Z.pow_pos_nonneg; lia)).
    assert (b mod 2 ^ (BIT_SIZE - n) <= b)
      by (apply Z.mod_le; [apply Hb | apply Z.pow_pos_nonneg; lia]).
    unfold is_bit in *. lia.
  - intros i Hi. rewrite Hbits by lia.
    replace (b - b mod 2 ^ (BIT_SIZE - n))
      with (Z.shiftl (Z.shiftr b (BIT_SIZE - n)) (BIT_SIZE - n)).
    + rewrite Z.shiftl_spec by lia.
      destruct (Z.leb_spec (BIT_SIZE - n) i).
      * rewrite Z.shiftr_spec by lia. cbn [andb]. f_equal. lia.
      * cbn [andb]. symmetry. apply Z.testbit_neg_r. lia.
    + rewrite Z.shiftl_mul_pow2, Z.shiftr_div_pow2 by lia.
      pose proof (Z.div_mod b (2 ^ (BIT_SIZE - n))
                    ltac:(apply Z.pow_nonzero; lia)). lia.
Qed.

Lemma filterLeft_keeps_high_bits_witness :
  (1 <= 62 <= BIT_SIZE ->
     Bit_filterLeft 29 62 = Some (29 - 29 mod 2 ^ (BIT_SIZE - 62))) /\
  (62 = 0 \/ BIT_SIZE < 62 -> Bit_filterLeft 29 62 = None).
Proof.
  apply (filterLeft_keeps_high_bits 29 62).
  - unfold is_bit. simpl. lia.
  - unfold is_size_t. simpl. lia.
Defined.

(** X7.  The two filters split a register: for [1 <= n <= N - 1] the
    [N - n] high bits and the [n] low bits have no bit in common and their
    OR is the register. *)
Theorem filterLeft_filterRight_split b n :
  is_bit b -> 1 <= n <= BIT_SIZE - 1 ->
  exists l r,
    Bit_filterLeft b (BIT_SIZE - n) = Some l /\
    Bit_filterRight b n = Some r /\
    Bit_AND l r = 0 /\ Bit_OR l r = b.
Proof.
  intros Hb Hn.
  destruct (filterLeft_in b (BIT_SIZE - n) ltac:(lia) Hb) as (l & El & Hl & Hlb).
  destruct (filterRight_in b n ltac:(lia)) as (r & Er & Hr & Hrb).
  exists l, r. split; [exact El |]. split; [exact Er |].
  unfold Bit_AND, Bit_OR.
  split; apply Z.bits_inj'; intros i Hi;
    rewrite ?Z.land_spec, ?Z.lor_spec, Hlb, Hrb, ?Z.testbit_0_l by exact Hi;
    replace (BIT_SIZE - (BIT_SIZE - n)) with n by lia;
    destruct (Z.leb_spec n i), (Z.ltb_spec i n); try lia;
    cbn [andb orb]; rewrite ?orb_false_r; reflexivity.
Qed.

Lemma filterLeft_filterRight_split_witness :
  exists l r,
    Bit_filterLeft 29 (BIT_SIZE - 3) = Some l /\
    Bit_filterRight 29 3 = Some r /\
    Bit_AND l r = 0 /\ Bit_OR l r = 29.
Proof.
  apply (filterLeft_filterRight_split 29 3).
  - unfold is_bit. simpl. lia.
  - unfold BIT_SIZE. lia.
Defined.

(** X8.  [filterSectionExcl(b, from, to)] is the complement of the section
    kept by [filterSectionIncl], not [b] with the section cleared: [get]
    reads 1 at every index outside [from + 1 .. to], and inside it the
    negation of the bit of [b]. *)
Theorem filterSectionExcl_complement b from to :
  is_bit b -> 0 <= from < BIT_SIZE -> 1 <= to <= BIT_SIZE ->
  exists e,
    Bit_filterSectionExcl b from to = Some e /\ is_bit e /\
    forall k, 1 <= k <= BIT_SIZE ->
      Bit_get e k =
      if (from <? k) && (k <=? to)
      then v <- Bit_get b k ;; Some (negb v)
      else Some true.
Proof.
  intros Hb Hf Ht. unfold Bit_filterSectionExcl.
  destruct (filterSectionIncl_in b from to Hb Hf Ht) as (f & -> & Hfb & Hff).
  cbn [bind]. eexists. split; [reflexivity |].
  split; [apply wrap_is_bit |].
  intros k Hk. rewrite !get_in by exact Hk. unfold C.not.
  rewrite wrap_testbit, Z.lnot_spec, Hff by lia.
  destruct (Z.ltb_spec (k - 1) BIT_SIZE); [| lia].
  destruct (Z.ltb_spec from k), (Z.leb_spec k to),
    (Z.leb_spec from (k - 1)), (Z.ltb_spec (k - 1) to);
    try lia; reflexivity.
Qed.

Lemma filterSectionExcl_complement_witness :
  exists e,
    Bit_filterSectionExcl 0 4 8 = Some e /\ is_bit e /\
    forall k, 1 <= k <= BIT_SIZE ->
      Bit_get e k =
      if (4 <? k) && (k <=? 8)
      then v <- Bit_get 0 k ;; Some (negb v)
      else Some true.
Proof.
  apply (filterSectionExcl_complement 0 4 8).
  - unfold is_bit. simpl. lia.
  - unfold BIT_SIZE. lia.
  - unfold BIT_SIZE. lia.
Defined.

(* ------------------------------------------------------------------ *)
(** ** The register as a shift register *)

Lemma lor_disjoint_add a b : Z.land a b = 0 -> Z.lor a b = a + b.
Proof.
  intros H. rewrite <- Z.lxor_lor by exact H.
  symmetry. now apply Z.add_nocarry_lxor.
Qed.

Lemma getAndRemoveLeft_eq b :
  Bit_getAndRemoveLeft b =
  Some (Z.testbit b (BIT_SIZE - 1), wrap (Z.shiftl b 1)).
Proof.
  unfold Bit_getAndRemoveLeft.
  rewrite get_in by (unfold BIT_SIZE; lia).
  cbn [bind]. rewrite shl_in by (unfold BIT_SIZE; lia). reflexivity.
Qed.

Lemma addRight_is_bit b c :
  0 <= b -> exists x, Bit_addRight b c = Some x /\ is_bit x /\
    forall j, 0 <= j ->
      Z.testbit x j =
      if j =? 0 then c else (j <? BIT_SIZE) && Z.testbit b (j - 1).
Proof.
  intros H0. destruct (addRight_bits b c H0) as (x & Ex & Hx0 & Hx).
  exists x. split; [exact Ex |]. split; [| exact Hx].
  apply is_bit_intro; [| exact Hx0].
  intros i Hi Hge. rewrite Hx by exact Hi.
  destruct (Z.eqb_spec i 0); [unfold BIT_SIZE in *; lia |].
  destruct (Z.ltb_spec i BIT_SIZE); [lia | reflexivity].
Qed.

Lemma addLeft_is_bit b c :
  is_bit b -> exists x, Bit_addLeft b c = Some x /\ is_bit x /\
    forall j, 0 <= j < BIT_SIZE ->
      Z.testbit x j =
      if j =? BIT_SIZE - 1 then c else Z.testbit b (j + 1).
Proof.
  intros Hb. unfold Bit_addLeft, Bit_shiftRight.
  rewrite shr_in by (unfold BIT_SIZE; lia). cbn [bind].
  assert (Hm : (if c then Bit_mask1 BIT_SIZE else Some 0) =
               Some (if c then 2 ^ (BIT_SIZE - 1) else 0)).
  { destruct c; [apply mask1_in; unfold BIT_SIZE; lia | reflexivity]. }
  rewrite Hm. cbn [bind]. eexists. split; [reflexivity |].
  assert (Hbits : forall j, 0 <= j ->
            Z.testbit (Bit_OR (Z.shiftr b 1)
                         (if c then 2 ^ (BIT_SIZE - 1) else 0)) j =
            Z.testbit b (j + 1) || (c && (j =? BIT_SIZE - 1))).
  { intros j Hj. unfold Bit_OR. rewrite Z.lor_spec, Z.shiftr_spec by exact Hj.
    f_equal. destruct c; cbn [andb]; [| apply Z.testbit_0_l].
    rewrite Z.pow2_bits_eqb by (unfold BIT_SIZE; lia). apply Z.eqb_sym. }
  split.
  - apply is_bit_intro.
    + intros i Hi Hge. rewrite Hbits by exact Hi.
      rewrite (is_bit_high b) by (assumption || lia).
      destruct (Z.eqb_spec i (BIT_SIZE - 1)); [lia |]. now rewrite andb_false_r.
    + apply Z.lor_nonneg. split; [apply Z.shiftr_nonneg, Hb |].
      destruct c; [apply Z.pow_nonneg |]; lia.
  - intros j Hj. rewrite Hbits by lia.
    destruct (Z.eqb_spec j (BIT_SIZE - 1)) as [-> | Hne].
    + rewrite (is_bit_high b) by (assumption || lia). now rewrite andb_true_r.
    + now rewrite andb_false_r, orb_false_r.
Qed.

Lemma addRight_value b c :
  is_bit b -> Bit_addRight b c = Some ((2 * b + Z.b2z c) mod 2 ^ BIT_SIZE).
Proof.
  intros Hb. unfold Bit_addRight, Bit_shiftLeft.
  rewrite shl_in by (unfold BIT_SIZE; lia). cbn [bind]. f_equal.
  unfold Bit_OR. rewrite lor_disjoint_add.
  - unfold wrap. rewrite Z.shiftl_mul_pow2 by lia. change (2 ^ 1) with 2.
    unfold is_bit, BIT_SIZE in *. destruct c; cbn [Z.b2z];
      Z.div_mod_to_equations; lia.
  - apply Z.bits_inj'. intros i Hi.
    rewrite Z.land_spec, wrap_testbit, Z.shiftl_spec, b2z_testbit,
      Z.testbit_0_l by exact Hi.
    destruct (Z.eqb_spec i 0) as [-> | Hne].
    + rewrite Z.testbit_neg_r by lia. now rewrite andb_false_r.
    + now rewrite !andb_false_r.
Qed.

Lemma addLeft_value b c :
  is_bit b -> Bit_addLeft b c = Some (b / 2 + Z.b2z c * 2 ^ (BIT_SIZE - 1)).
Proof.
  intros Hb. unfold Bit_addLeft, Bit_shiftRight.
  rewrite shr_in by (unfold BIT_SIZE; lia). cbn [bind].
  assert (Hm : (if c then Bit_mask1 BIT_SIZE else Some 0) =
               Some (Z.b2z c * 2 ^ (BIT_SIZE - 1))).
  { destruct c; [rewrite mask1_in by (unfold BIT_SIZE; lia) |];
      cbn [Z.b2z]; f_equal; lia. }
  rewrite Hm. cbn [bind]. f_equal. unfold Bit_OR.
  rewrite lor_disjoint_add.
  - rewrite Z.shiftr_div_pow2 by lia. reflexivity.
  - apply Z.bits_inj'. intros i Hi.
    rewrite Z.land_spec, Z.shiftr_spec, Z.testbit_0_l by exact Hi.
    destruct c; cbn [Z.b2z].
    + rewrite Z.mul_1_l, Z.pow2_bits_eqb by (unfold BIT_SIZE; lia).
      destruct (Z.eqb_spec (BIT_SIZE - 1) i) as [<- | Hne];
        [| apply andb_false_r].
      rewrite (is_bit_high b) by (assumption || lia). reflexivity.
    + rewrite Z.mul_0_l, Z.testbit_0_l. apply andb_false_r.
Qed.

(** X9.  As numbers: [addRight(b, c)] is [2 b + c] reduced modulo [2^N]
    (the most significant bit of [b] is lost), and [addLeft(b, c)] is
    [b / 2 + c * 2^(N-1)] (the least significant bit of [b] is lost). *)
Theorem addRight_addLeft_value b c :
  is_bit b ->
  Bit_addRight b c = Some ((2 * b + Z.b2z c) mod 2 ^ BIT_SIZE) /\
  Bit_addLeft b c = Some (b / 2 + Z.b2z c * 2 ^ (BIT_SIZE - 1)).
Proof.
  intros Hb. split; [now apply addRight_value | now apply addLeft_value].
Qed.

Lemma addRight_addLeft_value_witness :
  Bit_addRight 5 true = Some ((2 * 5 + Z.b2z true) mod 2 ^ BIT_SIZE) /\
  Bit_addLeft 5 true = Some (5 / 2 + Z.b2z true * 2 ^ (BIT_SIZE - 1)).
Proof.
  apply (addRight_addLeft_value 5 true). unfold is_bit. simpl. lia.
Defined.

(** X10.  Taking a bit off one end and putting it back on the same end
    restores the register, on the right and on the left. *)
Theorem remove_then_add_restores b :
  is_bit b ->
  ('(r, b') <- Bit_getAndRemoveRight b ;; Bit_addRight b' r) = Some b /\
  ('(r, b') <- Bit_getAndRemoveLeft b ;; Bit_addLeft b' r) = Some b.
Proof.
  intros Hb. rewrite getAndRemoveRight_eq, getAndRemoveLeft_eq. cbn [bind].
  split.
  - destruct (addRight_is_bit (Z.shiftr b 1) (Z.testbit b 0))
      as (x & -> & Hx & Hbits); [apply Z.shiftr_nonneg, Hb |].
    f_equal. apply is_bit_ext; [exact Hx | exact Hb |].
    intros j Hj. rewrite Hbits by lia.
    destruct (Z.eqb_spec j 0) as [-> | Hne]; [reflexivity |].
    rewrite Z.shiftr_spec by lia.
    destruct (Z.ltb_spec j BIT_SIZE); [| lia]. cbn [andb]. f_equal. lia.
  - destruct (addLeft_is_bit (wrap (Z.shiftl b 1)) (Z.testbit b (BIT_SIZE - 1)))
      as (x & -> & Hx & Hbits); [apply wrap_is_bit |].
    f_equal. apply is_bit_ext; [exact Hx | exact Hb |].
    intros j Hj. rewrite Hbits by lia.
    destruct (Z.eqb_spec j (BIT_SIZE - 1)) as [-> | Hne]; [reflexivity |].
    rewrite wrap_testbit, Z.shiftl_spec by lia.
    destruct (Z.ltb_spec (j + 1) BIT_SIZE); [| lia]. cbn [andb]. f_equal. lia.
Qed.

Lemma remove_then_add_restores_witness :
  ('(r, b') <- Bit_getAndRemoveRight 13 ;; Bit_addRight b' r) = Some 13 /\
  ('(r, b') <- Bit_getAndRemoveLeft 13 ;; Bit_addLeft b' r) = Some 13.
Proof.
  apply (remove_then_add_restores 13). unfold is_bit. simpl. lia.
Defined.

(** X11.  Adding a bit and taking it off again returns that bit, and the
    register without the bit that was pushed out at the other end: the most
    significant one after [addRight], the least significant one after
    [addLeft]. *)
Theorem add_then_remove_loses_far_bit b c :
  is_bit b ->
  (x <- Bit_addRight b c ;; Bit_getAndRemoveRight x) =
    Some (c, b mod 2 ^ (BIT_SIZE - 1)) /\
  (x <- Bit_addLeft b c ;; Bit_getAndRemoveLeft x) =
    Some (c, b - b mod 2).
Proof.
  intros Hb. split.
  - destruct (addRight_is_bit b c (proj1 Hb)) as (x & -> & Hx & Hbits).
    cbn [bind]. rewrite getAndRemoveRight_eq. f_equal. f_equal.
    + now rewrite Hbits by lia.
    + apply Z.bits_inj'. intros i Hi.
      rewrite Z.shiftr_spec, Hbits, Z.testbit_mod_pow2
        by (unfold BIT_SIZE; lia).
      destruct (Z.eqb_spec (i + 1) 0); [lia |].
      replace (i + 1 - 1) with i by lia.
      destruct (Z.ltb_spec (i + 1) BIT_SIZE), (Z.ltb_spec i (BIT_SIZE - 1));
        try lia; reflexivity.
  - destruct (addLeft_is_bit b c Hb) as (x & -> & Hx & Hbits).
    cbn [bind]. rewrite getAndRemoveLeft_eq. f_equal. f_equal.
    + rewrite Hbits by (unfold BIT_SIZE; lia). now rewrite Z.eqb_refl.
    + apply is_bit_ext; [apply wrap_is_bit | |].
      * pose proof (Z.mod_pos_bound b 2 ltac:(lia)).
        assert (b mod 2 <= b) by (apply Z.mod_le; [apply Hb | lia]).
        unfold is_bit in *. lia.
      * intros i Hi. rewrite wrap_testbit, Z.shiftl_spec by lia.
        destruct (Z.ltb_spec i BIT_SIZE); [| lia]. cbn [andb].
        replace (b - b mod 2) with (Z.shiftl (Z.shiftr b 1) 1).
        -- rewrite Z.shiftl_spec by lia.
           destruct (Z.eq_dec i 0) as [-> | Hne].
           ++ rewrite !Z.testbit_neg_r by lia. reflexivity.
           ++ rewrite Hbits, Z.shiftr_spec by lia.
              destruct (Z.eqb_spec (i - 1) (BIT_SIZE - 1)); [lia |].
              reflexivity.
        -- rewrite Z.shiftl_mul_pow2, Z.shiftr_div_pow2 by lia.
           change (2 ^ 1) with 2. Z.div_mod_to_equations. lia.
Qed.

Lemma add_then_remove_loses_far_bit_witness :
  (x <- Bit_addRight 13 true ;; Bit_getAndRemoveRight x) =
    Some (true, 13 mod 2 ^ (BIT_SIZE - 1)) /\
  (x <- Bit_addLeft 13 true ;; Bit_getAndRemoveLeft x) =
    Some (true, 13 - 13 mod 2).
Proof.
  apply (add_then_remove_loses_far_bit 13 true). unfold is_bit. simpl. lia.
Defined.

(* ------------------------------------------------------------------ *)
(** ** Several bits at a time *)

(** X12.  For [1 <= n <= N - 1], [addBitsRight(b, right, n)] is [b]
    shifted left by [n] with the [n] low bits of [right] below it, and
    [addBitsLeft(b, left, n)] is [b] shifted right by [n] with the [n] low
    bits of [left] on top; the other bits of [right] and [left] play no
    part.  For [n = 0] and [n >= N] neither has a result. *)
Theorem addBits_value b x n :
  is_bit b -> is_bit x -> is_size_t n ->
  (1 <= n <= BIT_SIZE - 1 ->
     Bit_addBitsRight b x n =
       Some ((b * 2 ^ n) mod 2 ^ BIT_SIZE + x mod 2 ^ n) /\
     Bit_addBitsLeft b x n =
       Some (b / 2 ^ n + (x mod 2 ^ n) * 2 ^ (BIT_SIZE - n))) /\
  (n = 0 \/ BIT_SIZE <= n ->
     Bit_addBitsRight b x n = None /\ Bit_addBitsLeft b x n = None).
Proof.
  intros Hb Hx Hn. split.
  - intros H. unfold Bit_addBitsRight, Bit_addBitsLeft.
    rewrite (filterRight_mod x n) by lia. unfold Bit_shiftLeft, Bit_shiftRight.
    rewrite sub_in by lia. rewrite !shl_in, shr_in by lia. cbn [bind].
    rewrite shl_in by lia. cbn [bind].
    assert (Hpos : 0 < 2 ^ n) by (apply Z.pow_pos_nonneg; lia).
    pose proof (Z.mod_pos_bound x (2 ^ n) Hpos) as Hm.
    unfold Bit_OR. split; f_equal.
    + rewrite lor_disjoint_add.
      * unfold wrap. now rewrite Z.shiftl_mul_pow2 by lia.
      * apply Z.bits_inj'. intros i Hi.
        rewrite Z.land_spec, wrap_testbit, Z.shiftl_spec,
          Z.testbit_mod_pow2, Z.testbit_0_l by lia.
        destruct (Z.ltb_spec i n).
        -- rewrite (Z.testbit_neg_r b) by lia. now rewrite andb_false_r.
        -- now rewrite andb_false_r.
    + assert (Hw : wrap (Z.shiftl (x mod 2 ^ n) (BIT_SIZE - n)) =
                   (x mod 2 ^ n) * 2 ^ (BIT_SIZE - n)).
      { rewrite Z.shiftl_mul_pow2 by lia. apply wrap_small. unfold is_bit.
        assert (0 < 2 ^ (BIT_SIZE - n)) by (apply Z.pow_pos_nonneg; lia).
        split; [nia |].
        replace (2 ^ BIT_SIZE) with (2 ^ n * 2 ^ (BIT_SIZE - n))
          by (rewrite <- Z.pow_add_r by lia; f_equal; lia).
        nia. }
      rewrite Hw, lor_disjoint_add.
      * now rewrite Z.shiftr_div_pow2 by lia.
      * rewrite <- Hw. apply Z.bits_inj'. intros i Hi.
        rewrite Z.land_spec, wrap_testbit, Z.shiftl_spec, Z.shiftr_spec,
          Z.testbit_0_l by lia.
        destruct (Z.lt_ge_cases i (BIT_SIZE - n)).
        -- rewrite (Z.testbit_neg_r (x mod 2 ^ n)) by lia.
           now rewrite !andb_false_r.
        -- rewrite (is_bit_high b) by (assumption || lia). reflexivity.
  - intros H. unfold Bit_addBitsRight, Bit_addBitsLeft.
    destruct H as [-> | H].
    + rewrite (filterRight_undefined x 0) by (assumption || now left).
      split; [| reflexivity].
      destruct (Bit_shiftLeft b 0); reflexivity.
    + unfold Bit_shiftLeft, Bit_shiftRight.
      rewrite shl_out, shr_out by exact H. split; reflexivity.
Qed.

Lemma addBits_value_witness :
  (1 <= 4 <= BIT_SIZE - 1 ->
     Bit_addBitsRight 5 255 4 =
       Some ((5 * 2 ^ 4) mod 2 ^ BIT_SIZE + 255 mod 2 ^ 4) /\
     Bit_addBitsLeft 5 255 4 =
       Some (5 / 2 ^ 4 + (255 mod 2 ^ 4) * 2 ^ (BIT_SIZE - 4))) /\
  (4 = 0 \/ BIT_SIZE <= 4 ->
     Bit_addBitsRight 5 255 4 = None /\ Bit_addBitsLeft 5 255 4 = None).
Proof.
  apply (addBits_value 5 255 4).
  - unfold is_bit. simpl. lia.
  - unfold is_bit. simpl. lia.
  - unfold is_size_t. simpl. lia.
Defined.

(* ------------------------------------------------------------------ *)
(** ** Rotation and reversal *)

(** X13.  For [1 <= n <= N - 1], bit [i] of [rotateRight(b, n)] is bit
    [i + n] of [b], counted cyclically, and rotating left by [n] is
    rotating right by [N - n]. *)
Theorem rotateRight_moves_bits b n :
  is_bit b -> 1 <= n <= BIT_SIZE - 1 ->
  exists r,
    Bit_rotateRight b n = Some r /\
    (forall i, 1 <= i <= BIT_SIZE ->
       Bit_get r i = Bit_get b ((i - 1 + n) mod BIT_SIZE + 1)) /\
    Bit_rotateLeft b (BIT_SIZE - n) = Some r.
Proof.
  intros Hb Hn.
  destruct (rotateRight_in b n Hb ltac:(lia)) as (r & Er & Hrb & Hr).
  destruct (rotateLeft_in b (BIT_SIZE - n) Hb ltac:(lia)) as (l & El & Hlb & Hl).
  exists r. split; [exact Er |]. split.
  - intros i Hi.
    assert (Hm : 0 <= (i - 1 + n) mod BIT_SIZE < BIT_SIZE)
      by (apply Z.mod_pos_bound; unfold BIT_SIZE; lia).
    rewrite !get_in by lia. rewrite Hr by lia. do 2 f_equal.
    destruct (Z.ltb_spec (i - 1 + n) BIT_SIZE).
    + rewrite Z.mod_small by lia. lia.
    + replace (i - 1 + n) with (i - 1 + n - BIT_SIZE + 1 * BIT_SIZE) at 2 by lia.
      rewrite Z.mod_add by (unfold BIT_SIZE; lia).
      rewrite Z.mod_small by lia. lia.
  - rewrite El. f_equal. apply is_bit_ext; [exact Hlb | exact Hrb |].
    intros i Hi. rewrite Hl, Hr by exact Hi.
    destruct (Z.ltb_spec i (BIT_SIZE - n)), (Z.ltb_spec (i + n) BIT_SIZE);
      try lia; f_equal; lia.
Qed.

Lemma rotateRight_moves_bits_witness :
  exists r,
    Bit_rotateRight 11 5 = Some r /\
    (forall i, 1 <= i <= BIT_SIZE ->
       Bit_get r i = Bit_get 11 ((i - 1 + 5) mod BIT_SIZE + 1)) /\
    Bit_rotateLeft 11 (BIT_SIZE - 5) = Some r.
Proof.
  apply (rotateRight_moves_bits 11 5).
  - unfold is_bit. simpl. lia.
  - unfold BIT_SIZE. lia.
Defined.

(** X14.  Reversal turns adding a bit on the right into adding it on the
    left, and the other way round. *)
Theorem reverse_swaps_addRight_addLeft b c :
  is_bit b ->
  (x <- Bit_addRight b c ;; Bit_reverse x) =
    (r <- Bit_reverse b ;; Bit_addLeft r c) /\
  (x <- Bit_addLeft b c ;; Bit_reverse x) =
    (r <- Bit_reverse b ;; Bit_addRight r c).
Proof.
  intros Hb.
  destruct (reverse_bits b) as (r & -> & Hrb & Hr). cbn [bind]. split.
  - destruct (addRight_is_bit b c (proj1 Hb)) as (x & -> & Hx & Hxb).
    cbn [bind].
    destruct (reverse_bits x) as (rx & -> & Hrxb & Hrx).
    destruct (addLeft_is_bit r c Hrb) as (y & -> & Hy & Hyb).
    f_equal. apply is_bit_ext; [assumption .. |].
    intros j Hj. rewrite Hrx, Hyb, Hxb by lia.
    destruct (Z.eqb_spec (BIT_SIZE - 1 - j) 0), (Z.eqb_spec j (BIT_SIZE - 1));
      try lia; [reflexivity |].
    rewrite Hr by lia.
    destruct (Z.ltb_spec (BIT_SIZE - 1 - j) BIT_SIZE); [| lia].
    cbn [andb]. f_equal. lia.
  - destruct (addLeft_is_bit b c Hb) as (x & -> & Hx & Hxb).
    cbn [bind].
    destruct (reverse_bits x) as (rx & -> & Hrxb & Hrx).
    destruct (addRight_is_bit r c (proj1 Hrb)) as (y & -> & Hy & Hyb).
    f_equal. apply is_bit_ext; [assumption .. |].
    intros j Hj. rewrite Hrx, Hyb, Hxb by lia.
    destruct (Z.eqb_spec (BIT_SIZE - 1 - j) (BIT_SIZE - 1)), (Z.eqb_spec j 0);
      try lia; [reflexivity |].
    rewrite Hr by lia.
    destruct (Z.ltb_spec j BIT_SIZE); [| lia].
    cbn [andb]. f_equal. lia.
Qed.

Lemma reverse_swaps_addRight_addLeft_witness :
  (x <- Bit_addRight 6 true ;; Bit_reverse x) =
    (r <- Bit_reverse 6 ;; Bit_addLeft r true) /\
  (x <- Bit_addLeft 6 true ;; Bit_reverse x) =
    (r <- Bit_reverse 6 ;; Bit_addRight r true).
Proof.
  apply (reverse_swaps_addRight_addLeft 6 true). unfold is_bit. simpl. lia.
Defined.

(** X15.  Reversal turns a left shift into a right shift by the same count
    [n < N], and the other way round. *)
Theorem reverse_swaps_shifts b n :
  is_bit b -> 0 <= n < BIT_SIZE ->
  (exists y,
     (x <- Bit_shiftLeft b n ;; Bit_reverse x) = Some y /\
     (r <- Bit_reverse b ;; Bit_shiftRight r n) = Some y) /\
  (exists y,
     (x <- Bit_shiftRight b n ;; Bit_reverse x) = Some y /\
     (r <- Bit_reverse b ;; Bit_shiftLeft r n) = Some y).
Proof.
  intros Hb Hn. unfold Bit_shiftLeft, Bit_shiftRight.
  destruct (reverse_bits b) as (r & -> & Hrb & Hr).
  rewrite !shl_in, !shr_in by exact Hn. cbn [bind].
  rewrite shl_in, shr_in by exact Hn. split.
  - destruct (reverse_bits (wrap (Z.shiftl b n))) as (y & -> & Hyb & Hy).
    exists y. split; [reflexivity |]. f_equal.
    apply is_bit_ext; [apply shiftr_is_bit; [exact Hrb | lia] | exact Hyb |].
    intros j Hj. rewrite Hy, wrap_testbit, Z.shiftl_spec, Z.shiftr_spec by lia.
    destruct (Z.ltb_spec (BIT_SIZE - 1 - j) BIT_SIZE); [| lia]. cbn [andb].
    destruct (Z.lt_ge_cases (j + n) BIT_SIZE).
    + rewrite Hr by lia. f_equal. lia.
    + rewrite (is_bit_high r) by (assumption || lia).
      symmetry. apply Z.testbit_neg_r. lia.
  - destruct (reverse_bits (Z.shiftr b n)) as (y & -> & Hyb & Hy).
    exists y. split; [reflexivity |]. f_equal.
    apply is_bit_ext; [apply wrap_is_bit | exact Hyb |].
    intros j Hj. rewrite Hy, wrap_testbit, Z.shiftl_spec, Z.shiftr_spec by lia.
    destruct (Z.ltb_spec j BIT_SIZE); [| lia]. cbn [andb].
    destruct (Z.lt_ge_cases j n).
    + rewrite (is_bit_high b) by (assumption || lia).
      apply Z.testbit_neg_r. lia.
    + rewrite Hr by lia. f_equal. lia.
Qed.

Lemma reverse_swaps_shifts_witness :
  (exists y,
     (x <- Bit_shiftLeft 6 3 ;; Bit_reverse x) = Some y /\
     (r <- Bit_reverse 6 ;; Bit_shiftRight r 3) = Some y) /\
  (exists y,
     (x <- Bit_shiftRight 6 3 ;; Bit_reverse x) = Some y /\
     (r <- Bit_reverse 6 ;; Bit_shiftLeft r 3) = Some y).
Proof.
  apply (reverse_swaps_shifts 6 3).
  - unfold is_bit. simpl. lia.
  - unfold BIT_SIZE. lia.
Defined.

(* ------------------------------------------------------------------ *)
(** ** The lowest and the highest bit set *)

Lemma getFirst1_loop_spec (fuel : nat) : forall b i,
  0 < b < 2 ^ Z.of_nat fuel ->
  exists t,
    0 <= t < Z.of_nat fuel /\
    getFirst1_loop fuel b i = Some (i + t) /\
    Z.testbit b t = true /\
    forall j, 0 <= j < t -> Z.testbit b j = false.
Proof.
  induction fuel as [| fuel IH]; intros b i Hb; [simpl in Hb; lia |].
  cbn [getFirst1_loop]. destruct (Z.eqb_spec b 0) as [-> | _]; [lia |].
  rewrite getAndRemoveRight_eq. cbn [bind].
  destruct (Z.testbit b 0) eqn:E0.
  - exists 0. split; [lia |]. split; [f_equal; lia |].
    split; [exact E0 | intros j Hj; lia].
  - assert (Hh : 0 < Z.shiftr b 1 < 2 ^ Z.of_nat fuel).
    { pose proof (halve_bound fuel b ltac:(lia)) as Hh.
      split; [| apply Hh].
      rewrite Z.shiftr_div_pow2 by lia. change (2 ^ 1) with 2.
      rewrite Z.bit0_odd in E0.
      assert (b <> 1) by (intros ->; discriminate).
      apply Z.div_str_pos. lia. }
    destruct (IH (Z.shiftr b 1) (i + 1) Hh) as (t & Ht & -> & Hbit & Hlow).
    exists (t + 1). split; [lia |]. split; [f_equal; lia |].
    rewrite Z.shiftr_spec in Hbit by lia. split; [exact Hbit |].
    intros j Hj. destruct (Z.eq_dec j 0) as [-> | Hne]; [exact E0 |].
    specialize (Hlow (j - 1) ltac:(lia)).
    rewrite Z.shiftr_spec in Hlow by lia.
    now replace (j - 1 + 1) with j in Hlow by lia.
Qed.

Lemma getFirst1_spec b fuel :
  is_bit b -> b <> 0 -> (Z.to_nat BIT_SIZE <= fuel)%nat ->
  exists t,
    0 <= t < BIT_SIZE /\
    Bit_getFirst1_fuel fuel b = Some (t + 1) /\
    Z.testbit b t = true /\
    forall j, 0 <= j < t -> Z.testbit b j = false.
Proof.
  intros Hb Hne Hf. unfold Bit_getFirst1_fuel.
  destruct (Z.gtb_spec b 0); [| unfold is_bit in Hb; lia].
  destruct (getFirst1_loop_spec fuel b 1) as (t & Ht & E & Hbit & Hlow).
  - split; [lia |]. apply Z.lt_le_trans with (2 ^ BIT_SIZE); [apply Hb |].
    apply Z.pow_le_mono_r; unfold BIT_SIZE in *; lia.
  - exists t. split; [| split; [rewrite E; f_equal; lia | split; assumption]].
    split; [lia |]. destruct (Z.lt_ge_cases t BIT_SIZE); [assumption |].
    rewrite is_bit_high in Hbit by assumption. discriminate.
Qed.

(** X16.  [getFirst1(0)] is 0.  For a register [b <> 0], [getFirst1(b)]
    is the index in [1, N] of the lowest bit set: [get] reads 1 there and 0
    at every index below.  The loop needs no more than [N] iterations. *)
Theorem getFirst1_lowest_set_bit b :
  is_bit b ->
  Bit_getFirst1 0 = Some 0 /\
  (b <> 0 ->
   exists i,
     (forall fuel, (Z.to_nat BIT_SIZE <= fuel)%nat ->
        Bit_getFirst1_fuel fuel b = Some i) /\
     Bit_getFirst1 b = Some i /\
     1 <= i <= BIT_SIZE /\
     Bit_get b i = Some true /\
     forall k, 1 <= k < i -> Bit_get b k = Some false).
Proof.
  intros Hb. split; [reflexivity |]. intros Hne.
  destruct (getFirst1_spec b (Z.to_nat BIT_SIZE) Hb Hne (Nat.le_refl _))
    as (t & Ht & E & Hbit & Hlow).
  exists (t + 1). split; [| split; [exact E |]].
  - intros fuel Hf.
    destruct (getFirst1_spec b fuel Hb Hne Hf) as (t' & Ht' & E' & Hbit' & Hlow').
    rewrite E'. do 2 f_equal.
    destruct (Z.lt_trichotomy t t') as [Hlt | [Heq | Hgt]]; [| exact (eq_sym Heq) |].
    + rewrite Hlow' in Hbit by lia. discriminate.
    + rewrite Hlow in Hbit' by lia. discriminate.
  - split; [lia |]. split.
    + rewrite get_in by lia. f_equal. now replace (t + 1 - 1) with t by lia.
    + intros k Hk. rewrite get_in by lia. f_equal. apply Hlow. lia.
Qed.

Lemma getFirst1_lowest_set_bit_witness :
  Bit_getFirst1 0 = Some 0 /\
  (40 <> 0 ->
   exists i,
     (forall fuel, (Z.to_nat BIT_SIZE <= fuel)%nat ->
        Bit_getFirst1_fuel fuel 40 = Some i) /\
     Bit_getFirst1 40 = Some i /\
     1 <= i <= BIT_SIZE /\
     Bit_get 40 i = Some true /\
     forall k, 1 <= k < i -> Bit_get 40 k = Some false).
Proof.
  apply (getFirst1_lowest_set_bit 40). unfold is_bit. simpl. lia.
Defined.

Lemma pow2_width : 2 ^ BIT_SIZE = 2 * 2 ^ (BIT_SIZE - 1) /\ 0 < 2 ^ (BIT_SIZE - 1).
Proof. split; reflexivity. Qed.

Lemma top_bit b :
  is_bit b -> Z.testbit b (BIT_SIZE - 1) = (2 ^ (BIT_SIZE - 1) <=? b).
Proof.
  intros Hb. destruct (Z.leb_spec (2 ^ (BIT_SIZE - 1)) b) as [Hle | Hlt].
  - apply Z.testbit_true; [unfold BIT_SIZE; lia |].
    pose proof pow2_width as [Hp Hq]. unfold is_bit in Hb.
    assert (Hd : b / 2 ^ (BIT_SIZE - 1) = 1)
      by (symmetry; apply Z.div_unique with (r := b - 2 ^ (BIT_SIZE - 1)); lia).
    rewrite Hd. reflexivity.
  - destruct (Z.eq_dec b 0) as [-> | Hne]; [apply Z.testbit_0_l |].
    apply Z.bits_above_log2; [apply Hb |].
    apply Z.log2_lt_pow2; unfold is_bit in Hb; lia.
Qed.

Lemma getSize_loop_spec (fuel : nat) : forall b i,
  is_bit b -> b <> 0 ->
  BIT_SIZE - 1 - Z.log2 b < Z.of_nat fuel ->
  BIT_SIZE - 1 - Z.log2 b <= i < 2 ^ BIT_SIZE ->
  getSize_loop fuel b i = Some (i - (BIT_SIZE - 1 - Z.log2 b)).
Proof.
  induction fuel as [| fuel IH]; intros b i Hb Hne Hf Hi.
  - assert (Z.log2 b < BIT_SIZE)
      by (apply Z.log2_lt_pow2; unfold is_bit in Hb; lia).
    lia.
  - cbn [getSize_loop]. destruct (Z.eqb_spec b 0) as [-> | _]; [lia |].
    rewrite getAndRemoveLeft_eq. cbn [bind]. rewrite top_bit by exact Hb.
    assert (Hpos : 0 < b) by (unfold is_bit in Hb; lia).
    destruct (Z.leb_spec (2 ^ (BIT_SIZE - 1)) b) as [Hle | Hlt].
    + assert (Z.log2 b = BIT_SIZE - 1).
      { apply Z.log2_unique; [unfold BIT_SIZE; lia |].
        split; [exact Hle |].
        replace (BIT_SIZE - 1 + 1) with BIT_SIZE by lia. apply Hb. }
      f_equal. lia.
    + assert (Hw : wrap (Z.shiftl b 1) = 2 * b).
      { rewrite Z.shiftl_mul_pow2 by lia. change (2 ^ 1) with 2.
        rewrite Z.mul_comm. apply wrap_small.
        pose proof pow2_width as [Hp Hq]. unfold is_bit in *. lia. }
      rewrite Hw.
      assert (Hl : Z.log2 (2 * b) = Z.log2 b + 1)
        by (rewrite Z.log2_double by exact Hpos; lia).
      assert (Hlog : Z.log2 b < BIT_SIZE - 1)
        by (apply Z.log2_lt_pow2; lia).
      assert (Hs : C.sub i 1 = i - 1).
      { unfold C.sub. apply wrap_small. unfold is_bit. lia. }
      rewrite Hs, IH.
      * f_equal. lia.
      * pose proof pow2_width as [Hp Hq]. unfold is_bit in *. lia.
      * lia.
      * lia.
      * lia.
Qed.

Lemma getSize_log2 b fuel :
  is_bit b -> b <> 0 -> (Z.to_nat BIT_SIZE <= fuel)%nat ->
  Bit_getSize_fuel fuel b = Some (Z.log2 b + 1).
Proof.
  intros Hb Hne Hf. unfold Bit_getSize_fuel.
  destruct (Z.eqb_spec b 0); [contradiction |].
  assert (0 <= Z.log2 b) by apply Z.log2_nonneg.
  assert (Hw : BIT_SIZE < 2 ^ BIT_SIZE) by reflexivity.
  assert (Hfz : BIT_SIZE <= Z.of_nat fuel) by (unfold BIT_SIZE in *; lia).
  rewrite getSize_loop_spec; [f_equal; lia | assumption | assumption | lia | lia].
Qed.

(** X17.  [getSize(0)] is 0.  For a register [b <> 0], [getSize(b)] is the
    index [s] in [1, N] of the highest bit set, the number of bits [b]
    needs: [2^(s-1) <= b < 2^s], [get] reads 1 at [s] and 0 at every index
    above.  The loop needs no more than [N] iterations. *)
Theorem getSize_highest_set_bit b :
  is_bit b ->
  Bit_getSize 0 = Some 0 /\
  (b <> 0 ->
   exists s,
     (forall fuel, (Z.to_nat BIT_SIZE <= fuel)%nat ->
        Bit_getSize_fuel fuel b = Some s) /\
     Bit_getSize b = Some s /\
     1 <= s <= BIT_SIZE /\
     2 ^ (s - 1) <= b < 2 ^ s /\
     Bit_get b s = Some true /\
     forall k, s < k <= BIT_SIZE -> Bit_get b k = Some false).
Proof.
  intros Hb. split; [reflexivity |]. intros Hne.
  assert (Hpos : 0 < b) by (unfold is_bit in Hb; lia).
  assert (H0 : 0 <= Z.log2 b) by apply Z.log2_nonneg.
  assert (Hlt : Z.log2 b < BIT_SIZE)
    by (apply Z.log2_lt_pow2; unfold is_bit in Hb; lia).
  exists (Z.log2 b + 1).
  split; [intros fuel Hf; now apply getSize_log2 |].
  split; [now apply getSize_log2 |]. split; [lia |]. split.
  - replace (Z.log2 b + 1 - 1) with (Z.log2 b) by lia.
    pose proof (Z.log2_spec b Hpos) as Hs.
    replace (Z.succ (Z.log2 b)) with (Z.log2 b + 1) in Hs by lia. exact Hs.
  - split.
    + rewrite get_in by lia. f_equal.
      replace (Z.log2 b + 1 - 1) with (Z.log2 b) by lia.
      now apply Z.bit_log2.
    + intros k Hk. rewrite get_in by lia. f_equal.
      apply Z.bits_above_log2; lia.
Qed.

Lemma getSize_highest_set_bit_witness :
  Bit_getSize 0 = Some 0 /\
  (40 <> 0 ->
   exists s,
     (forall fuel, (Z.to_nat BIT_SIZE <= fuel)%nat ->
        Bit_getSize_fuel fuel 40 = Some s) /\
     Bit_getSize 40 = Some s /\
     1 <= s <= BIT_SIZE /\
     2 ^ (s - 1) <= 40 < 2 ^ s /\
     Bit_get 40 s = Some true /\
     forall k, s < k <= BIT_SIZE -> Bit_get 40 k = Some false).
Proof.
  apply (getSize_highest_set_bit 40). unfold is_bit. simpl. lia.
Defined.

Lemma log2_from_bits a k :
  0 <= a -> 0 <= k -> Z.testbit a k = true ->
  (forall j, k < j -> Z.testbit a j = false) -> Z.log2 a = k.
Proof.
  intros Ha Hk Hbit Hhigh.
  assert (Hpos : 0 < a).
  { destruct (Z.eq_dec a 0) as [-> | Hne]; [| lia].
    rewrite Z.testbit_0_l in Hbit. discriminate. }
  destruct (Z.lt_trichotomy (Z.log2 a) k) as [Hlt | [Heq | Hgt]].
  - rewrite Z.bits_above_log2 in Hbit by lia. discriminate.
  - exact Heq.
  - pose proof (Z.bit_log2 a Hpos) as Hl.
    rewrite Hhigh in Hl by exact Hgt. discriminate.
Qed.

(** X18.  An index in [1, N] is read back from its mask, by [getFirst1]
    and by [getSize]. *)
Theorem mask1_index_round_trip n :
  1 <= n <= BIT_SIZE ->
  (m <- Bit_mask1 n ;; Bit_getFirst1 m) = Some n /\
  (m <- Bit_mask1 n ;; Bit_getSize m) = Some n.
Proof.
  intros Hn. rewrite mask1_in by exact Hn. cbn [bind].
  destruct (pow2_only_bit n Hn) as [Hb _].
  assert (Hne : 2 ^ (n - 1) <> 0) by (apply Z.pow_nonzero; lia).
  split.
  - destruct (getFirst1_spec _ (Z.to_nat BIT_SIZE) Hb Hne (Nat.le_refl _))
      as (t & Ht & E & Hbit & _).
    unfold Bit_getFirst1. rewrite E. f_equal.
    rewrite Z.pow2_bits_eqb in Hbit by lia.
    destruct (Z.eqb_spec (n - 1) t); [lia | discriminate].
  - unfold Bit_getSize.
    rewrite getSize_log2 by (assumption || apply Nat.le_refl).
    rewrite Z.log2_pow2 by lia. f_equal. lia.
Qed.

Lemma mask1_index_round_trip_witness :
  (m <- Bit_mask1 7 ;; Bit_getFirst1 m) = Some 7 /\
  (m <- Bit_mask1 7 ;; Bit_getSize m) = Some 7.
Proof. apply (mask1_index_round_trip 7). unfold BIT_SIZE. lia. Defined.

(** X19.  Reversal exchanges the two ends: for [b <> 0], the size of
    [reverse(b)] is [N + 1] minus the index of the first bit set in [b],
    and the first bit set in [reverse(b)] is at [N + 1] minus the size of
    [b]. *)
Theorem reverse_exchanges_first1_and_size b :
  is_bit b -> b <> 0 ->
  exists r f s,
    Bit_reverse b = Some r /\
    Bit_getFirst1 b = Some f /\ Bit_getSize b = Some s /\
    Bit_getSize r = Some (BIT_SIZE + 1 - f) /\
    Bit_getFirst1 r = Some (BIT_SIZE + 1 - s).
Proof.
  intros Hb Hne.
  destruct (reverse_bits b) as (r & Er & Hrb & Hr).
  destruct (getFirst1_spec b (Z.to_nat BIT_SIZE) Hb Hne (Nat.le_refl _))
    as (t & Ht & Ef & Hbit & Hlow).
  assert (Hpos : 0 < b) by (unfold is_bit in Hb; lia).
  assert (H0 : 0 <= Z.log2 b) by apply Z.log2_nonneg.
  assert (Hlt : Z.log2 b < BIT_SIZE)
    by (apply Z.log2_lt_pow2; unfold is_bit in Hb; lia).
  assert (Hrt : Z.testbit r (BIT_SIZE - 1 - t) = true).
  { rewrite Hr by lia. now replace (BIT_SIZE - 1 - (BIT_SIZE - 1 - t)) with t by lia. }
  assert (Hrne : r <> 0).
  { intros ->. rewrite Z.testbit_0_l in Hrt. discriminate. }
  exists r, (t + 1), (Z.log2 b + 1).
  split; [exact Er |]. split; [exact Ef |].
  split; [apply getSize_log2; assumption || apply Nat.le_refl |].
  split.
  - unfold Bit_getSize.
    rewrite getSize_log2 by (assumption || apply Nat.le_refl). f_equal.
    rewrite (log2_from_bits r (BIT_SIZE - 1 - t)); [lia | apply Hrb | lia | exact Hrt |].
    intros j Hj. destruct (Z.lt_ge_cases j BIT_SIZE).
    + rewrite Hr by lia. apply Hlow. lia.
    + now apply is_bit_high.
  - destruct (getFirst1_spec r (Z.to_nat BIT_SIZE) Hrb Hrne (Nat.le_refl _))
      as (t' & Ht' & Ef' & Hbit' & Hlow').
    unfold Bit_getFirst1. rewrite Ef'. f_equal.
    assert (Hs : Z.testbit r (BIT_SIZE - 1 - Z.log2 b) = true).
    { rewrite Hr by lia.
      replace (BIT_SIZE - 1 - (BIT_SIZE - 1 - Z.log2 b)) with (Z.log2 b) by lia.
      now apply Z.bit_log2. }
    destruct (Z.lt_trichotomy t' (BIT_SIZE - 1 - Z.log2 b)) as [Hl | [He | Hg]].
    + rewrite Hr in Hbit' by lia.
      rewrite Z.bits_above_log2 in Hbit' by lia. discriminate.
    + lia.
    + rewrite Hlow' in Hs by lia. discriminate.
Qed.

Lemma reverse_exchanges_first1_and_size_witness :
  exists r f s,
    Bit_reverse 40 = Some r /\
    Bit_getFirst1 40 = Some f /\ Bit_getSize 40 = Some s /\
    Bit_getSize r = Some (BIT_SIZE + 1 - f) /\
    Bit_getFirst1 r = Some (BIT_SIZE + 1 - s).
Proof.
  apply (reverse_exchanges_first1_and_size 40).
  - unfold is_bit. simpl. lia.
  - discriminate.
Defined.

(* ------------------------------------------------------------------ *)
(** ** Counting and parity *)

Lemma popcount_bounds (n : nat) : forall b, 0 <= popcount n b <= Z.of_nat n.
Proof.
  induction n as [| n IH]; intros b; [simpl; lia |].
  cbn [popcount]. specialize (IH (Z.shiftr b 1)).
  destruct (Z.testbit b 0); cbn [Z.b2z]; lia.
Qed.

Lemma popcount_zero (n : nat) : forall b,
  0 <= b < 2 ^ Z.of_nat n -> popcount n b = 0 -> b = 0.
Proof.
  induction n as [| n IH]; intros b Hb H; [simpl in Hb; lia |].
  cbn [popcount] in H.
  pose proof (popcount_bounds n (Z.shiftr b 1)) as Hp.
  pose proof (halve_bound n b Hb) as Hh.
  assert (H0 : Z.b2z (Z.testbit b 0) = 0)
    by (destruct (Z.testbit b 0); cbn [Z.b2z] in *; lia).
  assert (H1 : Z.shiftr b 1 = 0) by (apply IH; [exact Hh | lia]).
  rewrite Z.bit0_mod in H0. rewrite Z.shiftr_div_pow2 in H1 by lia.
  change (2 ^ 1) with 2 in H1. Z.div_mod_to_equations. lia.
Qed.

(** X20.  [count1(b)] lies between 0 and [N], and it is 0 for the zero
    register only. *)
Theorem count1_range b :
  is_bit b ->
  exists c, Bit_count1 b = Some c /\ 0 <= c <= BIT_SIZE /\ (c = 0 <-> b = 0).
Proof.
  intros Hb. unfold Bit_count1.
  rewrite count1_fuel by (assumption || apply Nat.le_refl).
  eexists. split; [reflexivity |].
  pose proof (popcount_bounds (Z.to_nat BIT_SIZE) b) as Hp.
  rewrite Z2Nat.id in Hp by (unfold BIT_SIZE; lia).
  split; [exact Hp |]. split.
  - apply popcount_zero. rewrite Z2Nat.id by (unfold BIT_SIZE; lia). exact Hb.
  - intros ->. apply popcount_0.
Qed.

Lemma count1_range_witness :
  exists c, Bit_count1 40 = Some c /\ 0 <= c <= BIT_SIZE /\ (c = 0 <-> 40 = 0).
Proof. apply (count1_range 40). unfold is_bit. simpl. lia. Defined.

Lemma popcount_lxor_pow2 (n : nat) : forall k b,
  0 <= k < Z.of_nat n ->
  popcount n (Z.lxor b (2 ^ k)) =
  popcount n b + 1 - 2 * Z.b2z (Z.testbit b k).
Proof.
  induction n as [| n IH]; intros k b Hk; [lia |].
  cbn [popcount]. rewrite Z.lxor_spec, Z.shiftr_lxor.
  destruct (Z.eq_dec k 0) as [-> | Hne].
  - change (2 ^ 0) with 1. change (Z.shiftr 1 1) with 0.
    rewrite Z.lxor_0_r. change (Z.testbit 1 0) with true.
    destruct (Z.testbit b 0); cbn [xorb negb Z.b2z]; lia.
  - rewrite Z.pow2_bits_false by lia. rewrite xorb_false_r.
    replace (Z.shiftr (2 ^ k) 1) with (2 ^ (k - 1)).
    + rewrite IH by lia. rewrite Z.shiftr_spec by lia.
      replace (k - 1 + 1) with k by lia. lia.
    + rewrite Z.shiftr_div_pow2 by lia. change (2 ^ 1) with 2.
      replace k with (k - 1 + 1) at 2 by lia.
      rewrite Z.pow_add_r by lia. change (2 ^ 1) with 2.
      now rewrite Z.div_mul by lia.
Qed.

(** X21.  [toggle] at any index changes [count1] by one, down if [get]
    read 1 there and up if it read 0, and so it inverts the parity bit. *)
Theorem toggle_changes_count1_by_one b n :
  is_bit b ->
  exists c v,
    Bit_count1 b = Some c /\ Bit_get b n = Some v /\
    (x <- Bit_toggle b n ;; Bit_count1 x) =
      Some (if v then c - 1 else c + 1) /\
    (x <- Bit_toggle b n ;; Bit_getEvenParityBit x) =
      (p <- Bit_getEvenParityBit b ;; Some (negb p)).
Proof.
  intros Hb. pose proof (clamp_range n) as Hc.
  set (k := clamp n - 1).
  assert (Hx : is_bit (Z.lxor b (2 ^ k))).
  { apply is_bit_intro.
    - intros i Hi Hge. rewrite Z.lxor_spec, (is_bit_high b) by assumption.
      rewrite Z.pow2_bits_false by (unfold k; lia). reflexivity.
    - apply Z.lxor_nonneg. split; intros _; [apply Z.pow_nonneg; lia | apply Hb]. }
  assert (Ec : Bit_count1 (Z.lxor b (2 ^ k)) =
               Some (popcount (Z.to_nat BIT_SIZE) b + 1
                     - 2 * Z.b2z (Z.testbit b k))).
  { unfold Bit_count1. rewrite count1_fuel by (assumption || apply Nat.le_refl).
    rewrite popcount_lxor_pow2; [reflexivity |].
    rewrite Z2Nat.id by (unfold BIT_SIZE; lia). unfold k. lia. }
  exists (popcount (Z.to_nat BIT_SIZE) b), (Z.testbit b k).
  unfold Bit_getEvenParityBit, Bit_toggle. rewrite mask1_clamp. cbn [bind].
  fold k. unfold Bit_XOR. rewrite Ec. cbn [bind].
  split; [unfold Bit_count1; apply count1_fuel; assumption || apply Nat.le_refl |].
  split; [apply get_clamp |]. split.
  - f_equal. destruct (Z.testbit b k); cbn [Z.b2z]; lia.
  - unfold Bit_count1. rewrite count1_fuel by (assumption || apply Nat.le_refl).
    cbn [bind]. f_equal.
    set (c := popcount (Z.to_nat BIT_SIZE) b).
    destruct (Z.eqb_spec ((c + 1 - 2 * Z.b2z (Z.testbit b k)) mod 2) 0),
      (Z.eqb_spec (c mod 2) 0); cbn [negb]; try reflexivity;
      destruct (Z.testbit b k); cbn [Z.b2z] in *;
      Z.div_mod_to_equations; lia.
Qed.

Lemma toggle_changes_count1_by_one_witness :
  exists c v,
    Bit_count1 40 = Some c /\ Bit_get 40 4 = Some v /\
    (x <- Bit_toggle 40 4 ;; Bit_count1 x) =
      Some (if v then c - 1 else c + 1) /\
    (x <- Bit_toggle 40 4 ;; Bit_getEvenParityBit x) =
      (p <- Bit_getEvenParityBit 40 ;; Some (negb p)).
Proof. apply (toggle_changes_count1_by_one 40 4). unfold is_bit. simpl. lia. Defined.

Lemma popcount_stable (n : nat) : forall b,
  0 <= b < 2 ^ Z.of_nat n -> popcount (S n) b = popcount n b.
Proof.
  induction n as [| n IH]; intros b Hb.
  - assert (b = 0) by (simpl in Hb; lia). subst b. reflexivity.
  - change (popcount (S (S n)) b)
      with (Z.b2z (Z.testbit b 0) + popcount (S n) (Z.shiftr b 1)).
    rewrite IH by (now apply halve_bound). reflexivity.
Qed.

Lemma reverse_loop_popcount (i : nat) : forall b rev,
  (i <= Z.to_nat BIT_SIZE)%nat ->
  0 <= rev < 2 ^ (BIT_SIZE - Z.of_nat i) ->
  exists r, reverse_loop i b rev = Some r /\
    popcount (Z.to_nat BIT_SIZE) r =
    popcount (Z.to_nat BIT_SIZE) rev + popcount i b.
Proof.
  induction i as [| i IH]; intros b rev Hi Hrev.
  - exists rev. split; [reflexivity |]. cbn [popcount]. lia.
  - cbn [reverse_loop]. rewrite getAndRemoveRight_eq. cbn [bind].
    assert (Hle : Z.of_nat (S i) <= BIT_SIZE) by (unfold BIT_SIZE in *; lia).
    assert (Hp : 2 ^ (BIT_SIZE - Z.of_nat i) =
                 2 * 2 ^ (BIT_SIZE - Z.of_nat (S i))).
    { rewrite <- Z.pow_succ_r by lia. f_equal. lia. }
    assert (Hq : 2 ^ (BIT_SIZE - Z.of_nat (S i)) <= 2 ^ (BIT_SIZE - 1))
      by (apply Z.pow_le_mono_r; lia).
    pose proof pow2_width as [Hw Hw'].
    assert (Hb : is_bit rev) by (unfold is_bit; lia).
    rewrite (addRight_value rev (Z.testbit b 0) Hb). cbn [bind].
    assert (Hv : (2 * rev + Z.b2z (Z.testbit b 0)) mod 2 ^ BIT_SIZE =
                 2 * rev + Z.b2z (Z.testbit b 0)).
    { apply Z.mod_small. destruct (Z.testbit b 0); cbn [Z.b2z]; lia. }
    rewrite Hv.
    destruct (IH (Z.shiftr b 1) (2 * rev + Z.b2z (Z.testbit b 0)))
      as (r & -> & Hr).
    + lia.
    + destruct (Z.testbit b 0); cbn [Z.b2z]; lia.
    + exists r. split; [reflexivity |]. rewrite Hr. cbn [popcount].
      assert (Hs : popcount (Z.to_nat BIT_SIZE)
                     (2 * rev + Z.b2z (Z.testbit b 0)) =
                   Z.b2z (Z.testbit b 0) + popcount (Z.to_nat BIT_SIZE) rev).
      { change (Z.to_nat BIT_SIZE) with (S (Z.to_nat (BIT_SIZE - 1))) at 1.
        cbn [popcount].
        assert (E0 : Z.testbit (2 * rev + Z.b2z (Z.testbit b 0)) 0 =
                     Z.testbit b 0)
          by apply Z.testbit_0_r.
        assert (E1 : Z.shiftr (2 * rev + Z.b2z (Z.testbit b 0)) 1 = rev).
        { rewrite Z.shiftr_div_pow2 by lia. change (2 ^ 1) with 2.
          destruct (Z.testbit b 0); cbn [Z.b2z]; Z.div_mod_to_equations; lia. }
        rewrite E0, E1. f_equal. symmetry.
        change (Z.to_nat BIT_SIZE) with (S (Z.to_nat (BIT_SIZE - 1))).
        apply popcount_stable.
        rewrite Z2Nat.id by (unfold BIT_SIZE; lia). lia. }
      rewrite Hs. lia.
Qed.

(** X22.  Reversal keeps the number of bits set. *)
Theorem reverse_keeps_count1 b :
  is_bit b ->
  exists c,
    Bit_count1 b = Some c /\ (r <- Bit_reverse b ;; Bit_count1 r) = Some c.
Proof.
  intros Hb. unfold Bit_reverse.
  destruct (reverse_loop_popcount (Z.to_nat BIT_SIZE) b 0) as (r & Er & Hr).
  - apply Nat.le_refl.
  - rewrite Z2Nat.id by (unfold BIT_SIZE; lia).
    replace (BIT_SIZE - BIT_SIZE) with 0 by lia. simpl. lia.
  - destruct (reverse_bits b) as (r' & Er' & Hrb & _).
    unfold Bit_reverse in Er'. rewrite Er in Er'. injection Er' as <-.
    exists (popcount (Z.to_nat BIT_SIZE) b). rewrite Er. cbn [bind].
    unfold Bit_count1.
    rewrite !count1_fuel by (assumption || apply Nat.le_refl).
    split; [reflexivity |]. f_equal. rewrite Hr, popcount_0. lia.
Qed.

Lemma reverse_keeps_count1_witness :
  exists c,
    Bit_count1 40 = Some c /\ (r <- Bit_reverse 40 ;; Bit_count1 r) = Some c.
Proof. apply (reverse_keeps_count1 40). unfold is_bit. simpl. lia. Defined.

(* ------------------------------------------------------------------ *)
(** ** Reading text *)

Lemma fromStringMSB_loop_any (s : string) : forall acc,
  is_bit acc ->
  exists r, fromStringMSB_loop s acc = Some r /\ is_bit r /\
    forall j, 0 <= j < BIT_SIZE ->
      Z.testbit r j =
      if j <? Z.of_nat (List.length (recognized s))
      then nth (List.length (recognized s) - 1 - Z.to_nat j) (recognized s) false
      else Z.testbit acc (j - Z.of_nat (List.length (recognized s))).
Proof.
  assert (Hstop : forall acc, is_bit acc ->
            exists r, Some acc = Some r /\ is_bit r /\
              forall j, 0 <= j < BIT_SIZE ->
                Z.testbit r j =
                if j <? Z.of_nat (@List.length bool [])
                then nth (@List.length bool [] - 1 - Z.to_nat j) [] false
                else Z.testbit acc (j - Z.of_nat (@List.length bool []))).
  { intros acc Ha. exists acc. split; [reflexivity |]. split; [exact Ha |].
    intros j Hj. cbn [List.length Z.of_nat].
    destruct (Z.ltb_spec j 0); [lia |]. f_equal. lia. }
  induction s as [| c s IH]; intros acc Ha.
  - now apply Hstop.
  - cbn [fromStringMSB_loop recognized].
    destruct (Ascii.eqb c zero); [now apply Hstop |].
    assert (Hdigit : forall v : bool,
              exists r,
                (b' <- Bit_addRight acc v ;; fromStringMSB_loop s b') = Some r /\
                is_bit r /\
                forall j, 0 <= j < BIT_SIZE ->
                  Z.testbit r j =
                  if j <? Z.of_nat (S (List.length (recognized s)))
                  then nth (S (List.length (recognized s)) - 1 - Z.to_nat j)
                           (v :: recognized s) false
                  else Z.testbit acc
                         (j - Z.of_nat (S (List.length (recognized s))))).
    { intros v.
      destruct (addRight_is_bit acc v (proj1 Ha)) as (acc' & -> & Ha' & Hacc').
      cbn [bind].
      destruct (IH acc' Ha') as (r & Er & Hrb & Hr).
      exists r. split; [exact Er |]. split; [exact Hrb |].
      intros j Hj. rewrite Hr by exact Hj.
      set (k := List.length (recognized s)) in *.
      destruct (Z.ltb_spec j (Z.of_nat k)), (Z.ltb_spec j (Z.of_nat (S k)));
        try lia.
      - replace (S k - 1 - Z.to_nat j)%nat with (S (k - 1 - Z.to_nat j)) by lia.
        reflexivity.
      - rewrite Hacc' by lia.
        destruct (Z.eqb_spec (j - Z.of_nat k) 0); [| lia].
        replace (S k - 1 - Z.to_nat j)%nat with O by lia. reflexivity.
      - rewrite Hacc' by lia.
        destruct (Z.eqb_spec (j - Z.of_nat k) 0); [lia |].
        destruct (Z.ltb_spec (j - Z.of_nat k) BIT_SIZE); [| lia].
        cbn [andb]. f_equal. lia. }
    destruct (Ascii.eqb_spec c "1") as [-> | Hn1].
    { cbn [orb List.length]. apply (Hdigit true). }
    destruct (Ascii.eqb_spec c "0") as [-> | Hn0].
    { cbn [orb List.length]. apply (Hdigit false). }
    cbn [orb]. now apply IH.
Qed.

Lemma fromStringMSB_bits s :
  exists r, Bit_fromStringMSB s = Some r /\ is_bit r /\
    forall j, 0 <= j < BIT_SIZE ->
      Z.testbit r j =
      (j <? Z.of_nat (List.length (recognized s))) &&
      nth (List.length (recognized s) - 1 - Z.to_nat j) (recognized s) false.
Proof.
  unfold Bit_fromStringMSB.
  destruct (fromStringMSB_loop_any s 0) as (r & -> & Hrb & Hr).
  - unfold is_bit. simpl. lia.
  - exists r. split; [reflexivity |]. split; [exact Hrb |].
    intros j Hj. rewrite Hr by exact Hj.
    destruct (Z.ltb_spec j (Z.of_nat (List.length (recognized s))));
      [reflexivity | apply Z.testbit_0_l].
Qed.

(** X23.  [fromStringMSB] has a result on every text.  With [k]
    recognized characters before the terminator, bit [i] of the result is
    the [i]-th recognized character counted from the end of the text for
    [i <= k], and 0 for [i > k]; with more than [N] recognized characters
    the last [N] of them make up the register. *)
Theorem fromStringMSB_last_characters s :
  exists r,
    Bit_fromStringMSB s = Some r /\ is_bit r /\
    forall i, 1 <= i <= BIT_SIZE ->
      Bit_get r i =
      Some (if i <=? Z.of_nat (List.length (recognized s))
            then nth (List.length (recognized s) - Z.to_nat i) (recognized s) false
            else false).
Proof.
  destruct (fromStringMSB_bits s) as (r & Er & Hrb & Hr).
  exists r. split; [exact Er |]. split; [exact Hrb |].
  intros i Hi. rewrite get_in by exact Hi. f_equal. rewrite Hr by lia.
  destruct (Z.ltb_spec (i - 1) (Z.of_nat (List.length (recognized s)))),
    (Z.leb_spec i (Z.of_nat (List.length (recognized s))));
    try lia; cbn [andb]; try reflexivity.
  f_equal. lia.
Qed.

(** X24.  Only the recognized characters count: two texts with the same
    sequence of '0' and '1' characters before their terminators give the
    same register, whatever else they contain. *)
Theorem fromStringMSB_skips_other_characters s1 s2 :
  recognized s1 = recognized s2 ->
  Bit_fromStringMSB s1 = Bit_fromStringMSB s2 /\
  Bit_fromStringLSB s1 = Bit_fromStringLSB s2.
Proof.
  intros H.
  assert (E : Bit_fromStringMSB s1 = Bit_fromStringMSB s2).
  { destruct (fromStringMSB_bits s1) as (r1 & -> & Hb1 & H1).
    destruct (fromStringMSB_bits s2) as (r2 & -> & Hb2 & H2).
    f_equal. apply is_bit_ext; [assumption .. |].
    intros j Hj. rewrite H1, H2 by exact Hj. now rewrite H. }
  split; [exact E |]. unfold Bit_fromStringLSB. now rewrite E.
Qed.

Lemma fromStringMSB_skips_other_characters_witness :
  Bit_fromStringMSB "1x0 1" = Bit_fromStringMSB "101" /\
  Bit_fromStringLSB "1x0 1" = Bit_fromStringLSB "101".
Proof.
  apply (fromStringMSB_skips_other_characters "1x0 1" "101"). reflexivity.
Defined.

(* ------------------------------------------------------------------ *)
(** ** Writing text *)

Lemma bin_text_get (n : nat) : forall b (j : nat),
  (j < n)%nat ->
  String.get j (bin_text n b) =
  Some (if Z.testbit b (Z.of_nat (n - 1 - j)) then "1" else "0")%char.
Proof.
  induction n as [| n IH]; intros b j Hj; [lia |].
  cbn [bin_text]. destruct j as [| j].
  - cbn [String.get]. replace (S n - 1 - 0)%nat with n by lia. reflexivity.
  - cbn [String.get]. rewrite IH by lia.
    replace (S n - 1 - S j)%nat with (n - 1 - j)%nat by lia. reflexivity.
Qed.


(* ------------------------------------------------------------------ *)
(** ** Printing *)

Lemma bin_text_ext (n : nat) : forall a b,
  (forall j, 0 <= j < Z.of_nat n -> Z.testbit a j = Z.testbit b j) ->
  bin_text n a = bin_text n b.
Proof.
  induction n as [| n IH]; intros a b H; [reflexivity |].
  cbn [bin_text]. rewrite (H (Z.of_nat n)) by lia.
  rewrite (IH a b); [reflexivity |]. intros j Hj. apply H. lia.
Qed.

Lemma append_nil_r (s : string) : (s ++ "")%string = s.
Proof. induction s as [| c s IH]; [reflexivity |]. cbn. now rewrite IH. Qed.

Lemma printBinNibble_loop_text (i : nat) : forall b flag out,
  is_bit b -> (i <= Z.to_nat BIT_SIZE)%nat ->
  printBinNibble_loop i b flag out =
  Some (out ++ spaced flag
                 (bin_text i (Z.shiftr b (BIT_SIZE - Z.of_nat i))))%string.
Proof.
  induction i as [| i IH]; intros b flag out Hb Hi.
  - cbn [printBinNibble_loop bin_text spaced]. now rewrite append_nil_r.
  - cbn [printBinNibble_loop]. rewrite getAndRemoveLeft_eq. cbn [bind].
    assert (Hle : Z.of_nat (S i) <= BIT_SIZE) by (unfold BIT_SIZE in *; lia).
    rewrite IH by (apply wrap_is_bit || lia). f_equal.
    cbn [bin_text spaced]. rewrite bin_text_length.
    rewrite (bin_text_ext i (Z.shiftr (wrap (Z.shiftl b 1)) (BIT_SIZE - Z.of_nat i))
               (Z.shiftr b (BIT_SIZE - Z.of_nat (S i)))).
    + rewrite Z.shiftr_spec by lia.
      replace (Z.of_nat i + (BIT_SIZE - Z.of_nat (S i))) with (BIT_SIZE - 1) by lia.
      destruct (Z.testbit b (BIT_SIZE - 1)), (flag && (i mod 4 =? 0)%nat);
        cbn [printf_d]; rewrite ?append_assoc; reflexivity.
    + intros j Hj. rewrite !Z.shiftr_spec, wrap_testbit, Z.shiftl_spec by lia.
      destruct (Z.ltb_spec (j + (BIT_SIZE - Z.of_nat i)) BIT_SIZE); [| lia].
      cbn [andb]. f_equal. lia.
Qed.

Lemma spaced_off s : spaced false s = s.
Proof. induction s as [| c s IH]; [reflexivity |]. cbn. now rewrite IH. Qed.

Lemma spaced_group4 (n : nat) : forall s,
  String.length s = (4 * n)%nat -> spaced true s = group4 s.
Proof.
  induction n as [| n IH]; intros s Hs.
  - destruct s; [reflexivity | discriminate].
  - destruct s as [| a [| b [| c [| d rest]]]]; cbn [String.length] in Hs;
      try lia.
    assert (Hr : String.length rest = (4 * n)%nat) by lia.
    cbn [spaced group4 andb String.length]. rewrite Hr.
    replace (S (S (S (4 * n))) mod 4)%nat with 3%nat
      by (replace (S (S (S (4 * n)))) with (3 + n * 4)%nat by lia;
          now rewrite Nat.Div0.mod_add).
    replace (S (S (4 * n)) mod 4)%nat with 2%nat
      by (replace (S (S (4 * n))) with (2 + n * 4)%nat by lia;
          now rewrite Nat.Div0.mod_add).
    replace (S (4 * n) mod 4)%nat with 1%nat
      by (replace (S (4 * n)) with (1 + n * 4)%nat by lia;
          now rewrite Nat.Div0.mod_add).
    replace ((4 * n) mod 4)%nat with 0%nat
      by (replace (4 * n)%nat with (0 + n * 4)%nat by lia;
          now rewrite Nat.Div0.mod_add).
    cbn [Nat.eqb]. now rewrite IH.
Qed.

Lemma group4_length (n : nat) : forall s,
  String.length s = (4 * n)%nat -> String.length (group4 s) = (5 * n)%nat.
Proof.
  induction n as [| n IH]; intros s Hs.
  - destruct s; [reflexivity | discriminate].
  - destruct s as [| a [| b [| c [| d rest]]]]; cbn [String.length] in Hs;
      try lia.
    cbn [group4 String.length]. rewrite (IH rest) by lia. lia.
Qed.

Lemma bin_text_digits b (j : nat) :
  (j < Z.to_nat BIT_SIZE)%nat ->
  exists v,
    Bit_get b (BIT_SIZE - Z.of_nat j) = Some v /\
    String.get j (bin_text (Z.to_nat BIT_SIZE) b) =
    Some (if v then "1" else "0")%char.
Proof.
  intros Hj.
  assert (Hjz : 0 <= Z.of_nat j < BIT_SIZE) by (unfold BIT_SIZE in *; lia).
  exists (Z.testbit b (BIT_SIZE - Z.of_nat j - 1)).
  split; [apply get_in; lia |]. rewrite bin_text_get by exact Hj.
  replace (Z.of_nat (Z.to_nat BIT_SIZE - 1 - j))
    with (BIT_SIZE - Z.of_nat j - 1) by (unfold BIT_SIZE in *; lia).
  reflexivity.
Qed.

Lemma printBinNibble_text b flag out :
  is_bit b ->
  Bit_printBinNibble b flag out =
  Some (out ++ spaced flag (bin_text (Z.to_nat BIT_SIZE) b))%string.
Proof.
  intros Hb. unfold Bit_printBinNibble.
  rewrite printBinNibble_loop_text by (assumption || apply Nat.le_refl).
  rewrite Z2Nat.id by (unfold BIT_SIZE; lia).
  replace (BIT_SIZE - BIT_SIZE) with 0 by lia. now rewrite Z.shiftr_0_r.
Qed.

(** X26.  [printBin(b)], which is [printBinNibble(b, false)], adds [N]
    characters to the output and nothing else: character [j] (from 0) is
    the digit of bit [N - j] of [b], the most significant bit first. *)
Theorem printBin_writes_binary_text b out :
  is_bit b ->
  exists s,
    Bit_printBin b out = Some (out ++ s)%string /\
    Bit_printBinNibble b false out = Some (out ++ s)%string /\
    String.length s = Z.to_nat BIT_SIZE /\
    forall j : nat, (j < Z.to_nat BIT_SIZE)%nat ->
      exists v,
        Bit_get b (BIT_SIZE - Z.of_nat j) = Some v /\
        String.get j s = Some (if v then "1" else "0")%char.
Proof.
  intros Hb. exists (bin_text (Z.to_nat BIT_SIZE) b).
  unfold Bit_printBin. rewrite printBinNibble_text, spaced_off by exact Hb.
  split; [reflexivity |]. split; [reflexivity |].
  split; [apply bin_text_length | apply bin_text_digits].
Qed.

Lemma printBin_writes_binary_text_witness :
  exists s,
    Bit_printBin 5 "" = Some ("" ++ s)%string /\
    Bit_printBinNibble 5 false "" = Some ("" ++ s)%string /\
    String.length s = Z.to_nat BIT_SIZE /\
    forall j : nat, (j < Z.to_nat BIT_SIZE)%nat ->
      exists v,
        Bit_get 5 (BIT_SIZE - Z.of_nat j) = Some v /\
        String.get j s = Some (if v then "1" else "0")%char.
Proof.
  apply (printBin_writes_binary_text 5 ""). unfold is_bit. simpl. lia.
Defined.

(** X27.  With grouping on, [printBinNibble(b, true)] adds 80 characters
    to the output: the [N] digits of [b], most significant bit first, in
    16 groups of four, with a space after every group, the last one
    included. *)
Theorem printBinNibble_groups_of_four b out :
  is_bit b ->
  exists s,
    Bit_printBinNibble b true out = Some (out ++ group4 s)%string /\
    String.length s = Z.to_nat BIT_SIZE /\
    (forall j : nat, (j < Z.to_nat BIT_SIZE)%nat ->
       exists v,
         Bit_get b (BIT_SIZE - Z.of_nat j) = Some v /\
         String.get j s = Some (if v then "1" else "0")%char) /\
    String.length (group4 s) = 80%nat.
Proof.
  intros Hb. exists (bin_text (Z.to_nat BIT_SIZE) b).
  assert (Hlen : String.length (bin_text (Z.to_nat BIT_SIZE) b) = (4 * 16)%nat)
    by (rewrite bin_text_length; reflexivity).
  rewrite printBinNibble_text by exact Hb.
  split; [now rewrite (spaced_group4 16) |].
  split; [apply bin_text_length |].
  split; [apply bin_text_digits | now rewrite (group4_length 16)].
Qed.

Lemma printBinNibble_groups_of_four_witness :
  exists s,
    Bit_printBinNibble 5 true "" = Some ("" ++ group4 s)%string /\
    String.length s = Z.to_nat BIT_SIZE /\
    (forall j : nat, (j < Z.to_nat BIT_SIZE)%nat ->
       exists v,
         Bit_get 5 (BIT_SIZE - Z.of_nat j) = Some v /\
         String.get j s = Some (if v then "1" else "0")%char) /\
    String.length (group4 s) = 80%nat.
Proof.
  apply (printBinNibble_groups_of_four 5 ""). unfold is_bit. simpl. lia.
Defined.

(** X28.  [printHex] adds exactly 18 characters to the output for every
    register, zero included. *)
Theorem printHex_width b out :
  is_bit b ->
  exists w,
    Bit_printHex b out = (out ++ w)%string /\ String.length w = 18%nat.
Proof.
  intros Hb. unfold Bit_printHex.
  exists (printf_llX true true 18 b). split; [reflexivity |].
  destruct (Z.eq_dec b 0) as [-> | Hne]; [reflexivity |].
  rewrite printf_llX_nonzero.
  - cbn [append String.length]. now rewrite hex_text_length.
  - unfold is_bit in Hb. change (2 ^ BIT_SIZE) with (16 ^ 16) in Hb. lia.
Qed.

Lemma printHex_width_witness :
  exists w,
    Bit_printHex 0 "" = ("" ++ w)%string /\ String.length w = 18%nat.
Proof. apply (printHex_width 0 ""). unfold is_bit. simpl. lia. Defined.

(* ------------------------------------------------------------------ *)
(** ** Results are registers *)

Lemma bitwise_is_bit (f : Z -> Z -> Z) (g : bool -> bool -> bool) a b :
  (forall i, 0 <= i -> Z.testbit (f a b) i = g (Z.testbit a i) (Z.testbit b i)) ->
  g false false = false -> 0 <= f a b ->
  is_bit a -> is_bit b -> is_bit (f a b).
Proof.
  intros Hf Hg H0 Ha Hb. apply is_bit_intro; [| exact H0].
  intros i Hi Hge. now rewrite Hf, !is_bit_high by assumption.
Qed.

(** X29.  The operations do not leave the 64-bit range: on registers, the
    three bitwise operators, [toggleAll], the two shifts by a count below
    [N] and the three single-bit mutators at any index all have a result,
    and it is a register. *)
Theorem primitives_return_registers b1 b2 n k :
  is_bit b1 -> is_bit b2 -> 0 <= n < BIT_SIZE ->
  is_bit (Bit_OR b1 b2) /\ is_bit (Bit_XOR b1 b2) /\ is_bit (Bit_AND b1 b2) /\
  is_bit (Bit_toggleAll b1) /\
  (exists x, Bit_shiftLeft b1 n = Some x /\ is_bit x) /\
  (exists x, Bit_shiftRight b1 n = Some x /\ is_bit x) /\
  (exists x, Bit_turnOn b1 k = Some x /\ is_bit x) /\
  (exists x, Bit_turnOff b1 k = Some x /\ is_bit x) /\
  (exists x, Bit_toggle b1 k = Some x /\ is_bit x).
Proof.
  intros H1 H2 Hn.
  assert (Hor : forall a b, is_bit a -> is_bit b -> is_bit (Z.lor a b)).
  { intros a b Ha Hb. apply (bitwise_is_bit Z.lor orb); try assumption;
      [intros; apply Z.lor_spec | reflexivity |].
    apply Z.lor_nonneg. split; [apply Ha | apply Hb]. }
  assert (Hxor : forall a b, is_bit a -> is_bit b -> is_bit (Z.lxor a b)).
  { intros a b Ha Hb. apply (bitwise_is_bit Z.lxor xorb); try assumption;
      [intros; apply Z.lxor_spec | reflexivity |].
    apply Z.lxor_nonneg. split; intros _; [apply Hb | apply Ha]. }
  assert (Hand : forall a b, is_bit a -> is_bit b -> is_bit (Z.land a b)).
  { intros a b Ha Hb. apply (bitwise_is_bit Z.land andb); try assumption;
      [intros; apply Z.land_spec | reflexivity |].
    apply Z.land_nonneg. left. apply Ha. }
  pose proof (clamp_range k) as Hc.
  assert (Hm : is_bit (2 ^ (clamp k - 1))) by (apply pow2_only_bit; exact Hc).
  unfold Bit_OR, Bit_XOR, Bit_AND, Bit_turnOn, Bit_turnOff, Bit_toggle,
    Bit_shiftLeft, Bit_shiftRight.
  rewrite mask1_clamp, shl_in, shr_in by exact Hn. cbn [bind].
  split; [now apply Hor |]. split; [now apply Hxor |].
  split; [now apply Hand |]. split; [apply wrap_is_bit |].
  split; [eexists; split; [reflexivity | apply wrap_is_bit] |].
  split; [eexists; split; [reflexivity | apply shiftr_is_bit; [exact H1 | lia]] |].
  split; [eexists; split; [reflexivity | now apply Hor] |].
  split; [eexists; split; [reflexivity | apply Hand; [exact H1 | apply wrap_is_bit]] |].
  eexists. split; [reflexivity | now apply Hxor].
Qed.

Lemma primitives_return_registers_witness :
  is_bit (Bit_OR 12 10) /\ is_bit (Bit_XOR 12 10) /\ is_bit (Bit_AND 12 10) /\
  is_bit (Bit_toggleAll 12) /\
  (exists x, Bit_shiftLeft 12 63 = Some x /\ is_bit x) /\
  (exists x, Bit_shiftRight 12 63 = Some x /\ is_bit x) /\
  (exists x, Bit_turnOn 12 70 = Some x /\ is_bit x) /\
  (exists x, Bit_turnOff 12 70 = Some x /\ is_bit x) /\
  (exists x, Bit_toggle 12 70 = Some x /\ is_bit x).
Proof.
  apply (primitives_return_registers 12 10 63 70).
  - unfold is_bit. simpl. lia.
  - unfold is_bit. simpl. lia.
  - unfold BIT_SIZE. lia.
Defined.
